(** * WebmOpusDemuxer (src/src/demuxers/WebmOpus.js), shallow embedding

    A [Buffer] is a [list Z] of byte values (0..255); JavaScript numbers
    that are used as integers are [Z].  [undefined] (reading a buffer out of
    range) is [None].  The bitwise operators of JavaScript work on 32-bit
    two's complement integers; they are written out with [toInt32]. *)

From Stdlib Require Import ZArith List String Ascii Bool Lia.
Import ListNotations.
Open Scope Z_scope.

(** ** JavaScript numbers and buffers *)

(** ToInt32 of ECMAScript, on integral numbers. *)
Definition toInt32 (z : Z) : Z :=
  let m := z mod 2 ^ 32 in if m >=? 2 ^ 31 then m - 2 ^ 32 else m.

(** [a << b]: both operands through ToInt32, the shift count taken mod 32. *)
Definition js_shl (a b : Z) : Z := toInt32 (Z.shiftl (toInt32 a) (b mod 32)).

(** [a & b]. *)
Definition js_and (a b : Z) : Z := toInt32 (Z.land (toInt32 a) (toInt32 b)).

(** [undefined] converts to 0 under ToInt32. *)
Definition undef0 (x : option Z) : Z := match x with Some v => v | None => 0 end.

Definition blen (b : list Z) : Z := Z.of_nat (List.length b).

(** [buffer[i]]: [undefined] out of range. *)
Definition at_ (b : list Z) (i : Z) : option Z :=
  if i <? 0 then None else nth_error b (Z.to_nat i).

(** Index normalisation of [Buffer.prototype.slice]: negative indices
    count from the end, and both ends are clamped to [0, length]. *)
Definition rel_index (len i : Z) : Z :=
  if i <? 0 then Z.max 0 (len + i) else Z.min i len.

(** [buf.slice(s, e)]. *)
Definition slice (b : list Z) (s e : Z) : list Z :=
  let s' := rel_index (blen b) s in
  let e' := rel_index (blen b) e in
  firstn (Z.to_nat (e' - s')) (skipn (Z.to_nat s') b).

(** [buf.slice(s)]. *)
Definition slice_from (b : list Z) (s : Z) : list Z := slice b s (blen b).

(** [a.equals(b)]. *)
Definition buf_equals (a b : list Z) : bool :=
  if list_eq_dec Z.eq_dec a b then true else false.

(** [buf.toString('hex')]: two lowercase hex digits per byte. *)
Definition hex_digit (n : Z) : ascii :=
  match String.get (Z.to_nat n) "0123456789abcdef" with
  | Some a => a
  | None => "0"%char
  end.

Fixpoint hex (b : list Z) : string :=
  match b with
  | [] => EmptyString
  | x :: r => String (hex_digit (x / 16)) (String (hex_digit (x mod 16)) (hex r))
  end.

(** ** Variable-length integers *)

(** The [for (; i < 8; i++) if ((1 << (7 - i)) & buffer[index]) break;] scan. *)
Fixpoint vint_scan (byte i : Z) (fuel : nat) : Z :=
  match fuel with
  | O => i
  | S f => if js_and (js_shl 1 (7 - i)) byte =? 0 then vint_scan byte (i + 1) f else i
  end.

(** [vintLength(buffer, index)]; [None] is [TOO_SHORT]. *)
Definition vintLength (buffer : list Z) (index : Z) : option Z :=
  let i := vint_scan (undef0 (at_ buffer index)) 0 8 + 1 in
  if index + i >? blen buffer then None else Some i.

(** [for (let i = start + 1; i < end; i++) value = (value << 8) + buffer[i];]
    An index out of range reads [undefined], and [value + undefined] is NaN,
    which the next [<< 8] turns into 0; here the read counts as 0. The two
    agree unless the last index read is out of range, that is [end <= 0],
    which only a negative offset gives. *)
Fixpoint expand_loop (buffer : list Z) (value i : Z) (n : nat) : Z :=
  match n with
  | O => value
  | S n' => expand_loop buffer (js_shl value 8 + undef0 (at_ buffer i)) (i + 1) n'
  end.

(** [expandVint(buffer, start, end)]; [None] is [TOO_SHORT]. *)
Definition expandVint (buffer : list Z) (start end_ : Z) : option Z :=
  match vintLength buffer start with
  | None => None
  | Some length =>
      if end_ >? blen buffer then None else
      let mask := js_shl 1 (8 - length) - 1 in
      let value := js_and (undef0 (at_ buffer start)) mask in
      Some (expand_loop buffer value (start + 1) (Z.to_nat (end_ - (start + 1))))
  end.

(** ** Constants *)

(** [OPUS_HEAD]: the bytes of ['OpusHead']. *)
Definition OPUS_HEAD : list Z := [79; 112; 117; 115; 72; 101; 97; 100].

(** [TAGS]: hex ID to "has children". *)
Definition TAGS_table : list (string * bool) :=
  [("1a45dfa3", true); (* EBML *)
   ("18538067", true); (* Segment *)
   ("1f43b675", true); (* Cluster *)
   ("1654ae6b", true); (* Tracks *)
   ("ae", true);       (* TrackEntry *)
   ("d7", false);      (* TrackNumber *)
   ("83", false);      (* TrackType *)
   ("a3", false);      (* SimpleBlock *)
   ("63a2", false)]%string.

(** [TAGS[id]]; [None] is [undefined]. *)
Fixpoint assoc (k : string) (l : list (string * bool)) : option bool :=
  match l with
  | [] => None
  | (k', v) :: r => if String.eqb k k' then Some v else assoc k r
  end.

Definition TAGS (id : string) : option bool := assoc id TAGS_table.

(** ** Parser state *)

(** [this._incompleteTrack] / [this._track]: a [{number, type}] object;
    [None] is an absent (or [undefined]) property. *)
Record IncompleteTrack := mkTrack { number : option Z; type : option Z }.

Definition emptyTrack : IncompleteTrack := mkTrack None None.

(** The fields of a [WebmOpusDemuxer]; [pushed] is what [this.push] has
    delivered to the readable side, in order. *)
Record state := mkState {
  _remainder : option (list Z);
  _length : Z;
  _count : Z;
  _skipUntil : option Z;
  _track : option IncompleteTrack;
  _incompleteTrack : IncompleteTrack;
  _ebmlFound : bool;
  pushed : list (list Z) }.

(** The constructor. *)
Definition init : state := mkState None 0 0 None None emptyTrack false [].

Definition set_remainder r s := mkState r s.(_length) s.(_count) s.(_skipUntil)
  s.(_track) s.(_incompleteTrack) s.(_ebmlFound) s.(pushed).
Definition set_length n s := mkState s.(_remainder) n s.(_count) s.(_skipUntil)
  s.(_track) s.(_incompleteTrack) s.(_ebmlFound) s.(pushed).
Definition set_count n s := mkState s.(_remainder) s.(_length) n s.(_skipUntil)
  s.(_track) s.(_incompleteTrack) s.(_ebmlFound) s.(pushed).
Definition set_skipUntil k s := mkState s.(_remainder) s.(_length) s.(_count) k
  s.(_track) s.(_incompleteTrack) s.(_ebmlFound) s.(pushed).
Definition set_track t s := mkState s.(_remainder) s.(_length) s.(_count) s.(_skipUntil)
  t s.(_incompleteTrack) s.(_ebmlFound) s.(pushed).
Definition set_incompleteTrack t s := mkState s.(_remainder) s.(_length) s.(_count)
  s.(_skipUntil) s.(_track) t s.(_ebmlFound) s.(pushed).
Definition set_ebmlFound b s := mkState s.(_remainder) s.(_length) s.(_count)
  s.(_skipUntil) s.(_track) s.(_incompleteTrack) b s.(pushed).
Definition push_unit u s := mkState s.(_remainder) s.(_length) s.(_count)
  s.(_skipUntil) s.(_track) s.(_incompleteTrack) s.(_ebmlFound) (s.(pushed) ++ [u]).

(** The [Error]s thrown by the demuxer; [Hang] marks a [while] loop that
    did not stop within the iteration bound of the model. *)
Inductive error := MissingEBML | NotOpus | NoAudioTrack | Hang.

(** A state and exception monad. *)
Inductive outcome (A : Type) :=
| Ret (a : A) (s : state)
| Throw (e : error) (s : state).
Arguments Ret {A}.
Arguments Throw {A}.

Definition M (A : Type) := state -> outcome A.

Definition ret {A} (a : A) : M A := fun s => Ret a s.
Definition bind {A B} (m : M A) (k : A -> M B) : M B :=
  fun s => match m s with Ret a s' => k a s' | Throw e s' => Throw e s' end.
Definition get : M state := fun s => Ret s s.
Definition modify (f : state -> state) : M unit := fun s => Ret tt (f s).
Definition throw {A} (e : error) : M A := fun s => Throw e s.

Notation "x <- m ;; k" := (bind m (fun x => k))
  (at level 61, m at next level, right associativity).

(** ** Tags *)

(** [TOO_SHORT], or a result object [{offset, _skipUntil}]. *)
Inductive tagResult := TOO_SHORT | Res (offset : Z) (skipUntil : option Z).

(** JavaScript truthiness of a number property that may be absent. *)
Definition truthy (x : option Z) : bool :=
  match x with Some n => negb (n =? 0) | None => false end.

(** [_readEBMLId]: the ID bytes and the offset after them. *)
Definition _readEBMLId (chunk : list Z) (offset : Z) : option (list Z * Z) :=
  match vintLength chunk offset with
  | None => None
  | Some idLength => Some (slice chunk offset (offset + idLength), offset + idLength)
  end.

(** [_readTagDataSize]: the offset after the size field and [dataLength].
    [expandVint] cannot be [TOO_SHORT] here ([end] is [offset + sizeLength]
    and [vintLength] has checked it). *)
Definition _readTagDataSize (chunk : list Z) (offset : Z) : option (Z * Z) :=
  match vintLength chunk offset with
  | None => None
  | Some sizeLength =>
      match expandVint chunk offset (offset + sizeLength) with
      | None => None
      | Some dataLength => Some (offset + sizeLength, dataLength)
      end
  end.

(** [this._incompleteTrack.type === 2 &&
     typeof this._incompleteTrack.number !== 'undefined'] *)
Definition is_audio_complete (it : IncompleteTrack) : bool :=
  (match it.(type) with Some 2 => true | _ => false end)
  && (match it.(number) with Some _ => true | None => false end).

(** Lines 124-131: track discovery, on a leaf whose data is [data]. *)
Definition discover (ebmlID : string) (data : list Z) (s : state) : state :=
  match s.(_track) with
  | Some _ => s
  | None =>
      let it := s.(_incompleteTrack) in
      let it := if String.eqb ebmlID "ae" then emptyTrack else it in
      let it := if String.eqb ebmlID "d7" then mkTrack (at_ data 0) it.(type) else it in
      let it := if String.eqb ebmlID "83" then mkTrack it.(number) (at_ data 0) else it in
      let s := set_incompleteTrack it s in
      if is_audio_complete it then set_track (Some it) s else s
  end.

(** [(data[0] & 0xF) === this._track.number] *)
Definition block_matches (data : list Z) (t : IncompleteTrack) : bool :=
  match t.(number) with
  | Some n => js_and (undef0 (at_ data 0)) 15 =? n
  | None => false
  end.

(** [_readTag(chunk, offset)]. *)
Definition _readTag (chunk : list Z) (offset : Z) : M tagResult :=
  match _readEBMLId chunk offset with
  | None => ret TOO_SHORT
  | Some (id, offset1) =>
    let ebmlID := hex id in
    s <- get ;;
    _ <- (if s.(_ebmlFound) then ret tt
          else if String.eqb ebmlID "1a45dfa3" then modify (set_ebmlFound true)
          else throw MissingEBML) ;;
    match _readTagDataSize chunk offset1 with
    | None => ret TOO_SHORT
    | Some (offset2, dataLength) =>
      match TAGS ebmlID with
      | None =>
          if blen chunk >? offset2 + dataLength then ret (Res (offset2 + dataLength) None)
          else s <- get ;; ret (Res offset2 (Some (s.(_count) + offset2 + dataLength)))
      | Some true => ret (Res offset2 None)
      | Some false =>
          if offset2 + dataLength >? blen chunk then ret TOO_SHORT else
          let data := slice chunk offset2 (offset2 + dataLength) in
          _ <- modify (discover ebmlID data) ;;
          if String.eqb ebmlID "63a2" then
            (if buf_equals (slice data 0 8) OPUS_HEAD then ret (Res (offset2 + dataLength) None)
             else throw NotOpus)
          else if String.eqb ebmlID "a3" then
            (s <- get ;;
             match s.(_track) with
             | None => throw NoAudioTrack
             | Some t =>
                 _ <- (if block_matches data t then modify (push_unit (slice_from data 4))
                       else ret tt) ;;
                 ret (Res (offset2 + dataLength) None)
             end)
          else ret (Res (offset2 + dataLength) None)
      end
    end
  end.

(** ** The transform *)

(** The [while] loop of [_transform] (lines 40-49), from [offset]; returns
    the offset it stops at. *)
Fixpoint tag_loop (fuel : nat) (chunk : list Z) (offset : Z) : M Z :=
  match fuel with
  | O => throw Hang
  | S f =>
      result <- _readTag chunk offset ;;
      match result with
      | TOO_SHORT => ret offset
      | Res o sk =>
          if truthy sk then (_ <- modify (set_skipUntil sk) ;; ret offset)
          else if o =? 0 then ret offset
          else tag_loop f chunk o
      end
  end.

(** Iteration bound of the loop: each iteration that goes on advances the
    offset by at least one tag header. *)
Definition loop_fuel (chunk : list Z) : nat := S (S (Z.to_nat (blen chunk))).

(** Lines 50-52. *)
Definition finish (chunk : list Z) (offset : Z) : M unit :=
  modify (fun s => set_remainder (Some (slice_from chunk offset))
                     (set_count (s.(_count) + offset) s)).

(** [_transform(chunk)]. *)
Definition _transform (chunk0 : list Z) : M unit :=
  s <- get ;;
  let s := set_length (s.(_length) + blen chunk0) s in
  let '(chunk, s) := match s.(_remainder) with
                     | Some r => (r ++ chunk0, set_remainder None s)
                     | None => (chunk0, s)
                     end in
  _ <- modify (fun _ => s) ;;
  match s.(_skipUntil) with
  | Some k =>
      if truthy (Some k) && (s.(_length) >? k) then
        (_ <- modify (set_skipUntil None) ;;
         offset <- tag_loop (loop_fuel chunk) chunk (k - s.(_count)) ;;
         finish chunk offset)
      else if truthy (Some k) then
        modify (set_count (s.(_count) + blen chunk))
      else
        (offset <- tag_loop (loop_fuel chunk) chunk 0 ;; finish chunk offset)
  | None => offset <- tag_loop (loop_fuel chunk) chunk 0 ;; finish chunk offset
  end.

(** Feeding the chunks in order; a thrown error ends the stream. *)
Fixpoint run (chunks : list (list Z)) : M unit :=
  match chunks with
  | [] => ret tt
  | c :: cs => _ <- _transform c ;; run cs
  end.

(** ** Reference encodings and sample streams *)

(** Big-endian low [k] bytes of [v]. *)
Fixpoint be_bytes (v : Z) (k : nat) : list Z :=
  match k with
  | O => []
  | S k' => Z.land (Z.shiftr v (8 * Z.of_nat k')) 255 :: be_bytes v k'
  end.

(** The length-prefix (vint) encoding of [v] on [n] bytes, as the format
    defines it (used to state the round trip): a marker bit at position
    [n] of the first byte, then the value big-endian. *)
Definition vint_encode (v : Z) (n : nat) : list Z :=
  Z.lor (Z.shiftl 1 (8 - Z.of_nat n)) (Z.shiftr v (8 * Z.of_nat (n - 1)))
    :: be_bytes v (n - 1).

(** An EBML header element with an empty body. *)
Definition ebml_header : list Z := [0x1a; 0x45; 0xdf; 0xa3; 0x80].

(** A SimpleBlock ([a3]) of 5 data bytes: track byte [0x80 + n], timecode
    [t1 t2], flags [fl], one frame byte [x]. *)
Definition simple_block (n t1 t2 fl x : Z) : list Z :=
  [0xa3; 0x85; 0x80 + n; t1; t2; fl; x].

(** A SimpleBlock ([a3]) with data [data], its size written on [n]
    bytes. *)
Definition simple_block_n (n : nat) (data : list Z) : list Z :=
  0xa3 :: vint_encode (blen data) n ++ data.

(** The size of [data] fits in an [n]-byte size field (1 to 8 bytes) and
    is below [2^31] (see C2). *)
Definition size_fits (data : list Z) (n : nat) : Prop :=
  (1 <= n <= 8)%nat /\ blen data < 2 ^ (7 * Z.of_nat n) /\ blen data < 2 ^ 31.

(** A TrackEntry ([ae]) with TrackNumber [num] and TrackType [ty]. *)
Definition track_entry (num ty : Z) : list Z :=
  [0xae; 0x86; 0xd7; 0x81; num; 0x83; 0x81; ty].

(** ** Notions used by the proofs *)

Definition final {A} (o : outcome A) : state :=
  match o with Ret _ s => s | Throw _ s => s end.

Ltac dmatch :=
  match goal with
  | |- context [match ?x with _ => _ end] => let E := fresh "E" in destruct x eqn:E
  end.

Ltac mred := cbn [bind get ret modify throw final finish] in *.

Definition track_inv (s : state) : Prop :=
  s.(_track) = None -> is_audio_complete s.(_incompleteTrack) = false.

Definition emitted_track_ok (s : state) : Prop :=
  s.(pushed) = [] \/
  exists t n, s.(_track) = Some t /\ t.(number) = Some n /\ 0 <= n < 16.

Definition EBML_ID : string := "1a45dfa3".

(** [_transform], with the working buffer and the entry updates named. *)
Definition working (chunk : list Z) (s : state) : list Z :=
  match s.(_remainder) with Some r => r ++ chunk | None => chunk end.

Definition entered (chunk : list Z) (s : state) : state :=
  set_remainder None (set_length (s.(_length) + blen chunk) s).

(** States before the first tag ID is complete: the whole input so far is
    kept as the remainder. *)
Definition pre_state (r : option (list Z)) (P : list Z) : state :=
  mkState r (blen P) 0 None None emptyTrack false [].

Definition remainder_is (r : option (list Z)) (P : list Z) : Prop :=
  match r with Some x => x = P | None => P = [] end.

(** The ID, data offset and declared length of the tag at [p]. *)
Definition header (B : list Z) (p : Z) : option (list Z * Z * Z) :=
  match _readEBMLId B p with
  | Some (id, o1) =>
      match _readTagDataSize B o1 with
      | Some (o2, dl) => Some (id, o2, dl)
      | None => None
      end
  | None => None
  end.

(** Where the walker goes after the tag at [p]: into a container, past
    anything else. *)
Definition tag_next (B : list Z) (p : Z) : option Z :=
  match header B p with
  | Some (id, o2, dl) => Some (match TAGS (hex id) with Some true => o2 | _ => o2 + dl end)
  | None => None
  end.

Inductive reach (B : list Z) (p : Z) : Z -> Prop :=
| reach_refl : reach B p p
| reach_step q q' : reach B p q -> tag_next B q = Some q' -> reach B p q'.

(** The declared length of a tag that is not a container is not negative
    (it is when [expandVint] wraps past 2^31). *)
Definition leaf_ok (B : list Z) (p : Z) : Prop :=
  forall id o2 dl, header B p = Some (id, o2, dl) -> TAGS (hex id) <> Some true -> 0 <= dl.

Definition good (B : list Z) (p : Z) : Prop :=
  0 <= p /\ forall q, reach B p q -> leaf_ok B q.

(** A well-formed stream: every tag the walker reaches from the start that
    is not a container has a non-negative declared length. *)
Definition well_formed (S : list Z) : Prop := good S 0.

(** The buffer from offset [k] on. *)
Definition dropZ (k : Z) (B : list Z) : list Z := skipn (Z.to_nat k) B.

(** Two states with the same parser fields, whose [_count] differ by [d]
    ([_remainder] and [_length] are not compared). *)
Definition agree (d : Z) (s1 s2 : state) : Prop :=
  s1.(_skipUntil) = s2.(_skipUntil) /\ s1.(_track) = s2.(_track) /\
  s1.(_incompleteTrack) = s2.(_incompleteTrack) /\ s1.(_ebmlFound) = s2.(_ebmlFound) /\
  s1.(pushed) = s2.(pushed) /\ s1.(_count) = s2.(_count) + d.

Definition shift_res (k : Z) (r : tagResult) : tagResult :=
  match r with TOO_SHORT => TOO_SHORT | Res o sk => Res (k + o) sk end.

(** Outcomes on a buffer dropped by [k] and on the whole buffer. *)
Definition rel_out {A B} (f : A -> B) (d : Z) (o1 : outcome A) (o2 : outcome B) : Prop :=
  match o1, o2 with
  | Ret a1 t1, Ret a2 t2 => a2 = f a1 /\ agree d t1 t2
  | Throw e1 t1, Throw e2 t2 => e1 = e2 /\ agree d t1 t2
  | _, _ => False
  end.

(** Case on an innermost [match] of the goal. *)
Ltac dmatch_in :=
  match goal with
  | |- context [match ?x with _ => _ end] =>
      lazymatch x with
      | context [match _ with _ => _ end] => fail
      | _ => let E := fresh "E" in destruct x eqn:E
      end
  end.

(** Boolean comparisons on [Z] in the context, as propositions. *)
Ltac zbool :=
  repeat match goal with
  | H : (_ >? _) = false |- _ => rewrite Z.gtb_ltb, Z.ltb_ge in H
  | H : (_ >? _) = true |- _ => rewrite Z.gtb_ltb, Z.ltb_lt in H
  | H : (_ =? _) = false |- _ => apply Z.eqb_neq in H
  | H : (_ =? _) = true |- _ => apply Z.eqb_eq in H
  end.

Ltac close_rel :=
  unfold ret; cbn [rel_out shift_res];
  repeat match goal with
  | |- _ /\ _ => split
  | |- agree _ _ _ => unfold agree; cbn
  | |- Res _ _ = Res _ _ => apply (f_equal2 Res); [lia | first [reflexivity | f_equal; lia]]
  | |- _ = _ => first [reflexivity | lia]
  end.

(** [_readTag] keeps [_remainder], [_length], [_count] and [_skipUntil]. *)
Definition frame (s : state) : option (list Z) * Z * Z * option Z :=
  (s.(_remainder), s.(_length), s.(_count), s.(_skipUntil)).

(** Enough iterations for the loop from [p]. *)
Definition gfuel (B : list Z) (p : Z) : nat := S (Z.to_nat (blen B - p)).

(** The part of [_readTag] after the EBML gate (lines 104-142). *)
Definition after_gate (chunk : list Z) (offset1 : Z) (ebmlID : string) : M tagResult :=
    match _readTagDataSize chunk offset1 with
    | None => ret TOO_SHORT
    | Some (offset2, dataLength) =>
      match TAGS ebmlID with
      | None =>
          if blen chunk >? offset2 + dataLength then ret (Res (offset2 + dataLength) None)
          else s <- get ;; ret (Res offset2 (Some (s.(_count) + offset2 + dataLength)))
      | Some true => ret (Res offset2 None)
      | Some false =>
          if offset2 + dataLength >? blen chunk then ret TOO_SHORT else
          let data := slice chunk offset2 (offset2 + dataLength) in
          _ <- modify (discover ebmlID data) ;;
          if String.eqb ebmlID "63a2" then
            (if buf_equals (slice data 0 8) OPUS_HEAD then ret (Res (offset2 + dataLength) None)
             else throw NotOpus)
          else if String.eqb ebmlID "a3" then
            (s <- get ;;
             match s.(_track) with
             | None => throw NoAudioTrack
             | Some t =>
                 _ <- (if block_matches data t then modify (push_unit (slice_from data 4))
                       else ret tt) ;;
                 ret (Res (offset2 + dataLength) None)
             end)
          else ret (Res (offset2 + dataLength) None)
      end
    end.

(** The loop with enough iterations. *)
Definition GL (B : list Z) (p : Z) : M Z := tag_loop (gfuel B p) B p.

(** What the demuxer has found and emitted. *)
Definition fl (s : state) : option IncompleteTrack * IncompleteTrack * bool * list (list Z) :=
  (s.(_track), s.(_incompleteTrack), s.(_ebmlFound), s.(pushed)).

Definition remv (s : state) : list Z :=
  match s.(_remainder) with Some r => r | None => [] end.

(** After the chunks that make up [P] (a prefix of [S]), the demuxer is
    where the loop over all of [P] from the start, with [_count] 0, is: same
    findings and emissions, same error; its remainder is [P] from [_count]
    on, and it resumes where that loop stopped or waits for the end of the
    same skipped tag. *)
Definition Inv (S P : list Z) (o : outcome unit) (G : outcome Z) : Prop :=
  match o, G with
  | Throw e s, Throw e' g => e = e' /\ fl s = fl g
  | Ret _ s, Ret q g =>
      fl s = fl g /\ g.(_count) = 0 /\ s.(_length) = blen P /\
      0 <= s.(_count) <= blen P /\ remv s = dropZ s.(_count) P /\
      match g.(_skipUntil) with
      | None => s.(_skipUntil) = None /\ s.(_count) = q /\ reach S 0 q
      | Some t => s.(_skipUntil) = Some t /\ blen P <= t /\ reach S 0 t /\ 0 < t
      end
  | _, _ => False
  end.

(** Well-formedness decided by walking the stream. *)
Definition leaf_okb (B : list Z) (p : Z) : bool :=
  match header B p with
  | Some (id, o2, dl) => match TAGS (hex id) with Some true => true | _ => 0 <=? dl end
  | None => true
  end.

Fixpoint wf_walk (fuel : nat) (B : list Z) (p : Z) : bool :=
  match fuel with
  | O => false
  | S f => leaf_okb B p && match tag_next B p with None => true | Some q => wf_walk f B q end
  end.

Definition sample_stream : list Z :=
  ebml_header ++ track_entry 3 2 ++ simple_block 3 1 2 0 0x11 ++ simple_block 3 1 2 0 0x22.

(** The demuxer's buffers after it has been fed the bytes [P]: its
    remainder is [P] from [_count] on. *)
Definition consistent (P : list Z) (s : state) : Prop :=
  s.(_length) = blen P /\ 0 <= s.(_count) <= blen P /\ remv s = dropZ s.(_count) P.

(** An unknown tag [ec] (EBML Void) declaring a 10-byte body, after the EBML
    header: the first chunk holds 2 bytes of the body, the second 3 more, the
    third the last 5, a TrackEntry and a SimpleBlock. The body ends at
    absolute offset 17. *)
Definition skip_chunk1 : list Z := ebml_header ++ [0xec; 0x8a; 1; 2].
Definition skip_chunk2 : list Z := [3; 4; 5].
Definition skip_chunk3 : list Z := [6; 7; 8; 9; 10] ++ track_entry 3 2 ++ simple_block 3 0 0 0 0x11.

(** The state when the loop reaches the unknown tag in the first chunk, and
    after the first and the second chunk. *)
Definition skip_s0 : state := set_ebmlFound true (entered skip_chunk1 init).
Definition skip_s1 : state := final (run [skip_chunk1] init).
Definition skip_s2 : state := final (run [skip_chunk1; skip_chunk2] init).

(** Sample inputs of the further properties. *)

(** A codec-signature leaf ['63a2'] of 9 bytes: ['OpusHead'] and one more. *)
Definition opus_chunk : list Z := ebml_header ++ [0x63; 0xa2; 0x89] ++ OPUS_HEAD ++ [1].

(** The state after the EBML header and a TrackEntry of audio track 0. *)
Definition track0_state : state := final (run [ebml_header ++ track_entry 0 2] init).

(** An unknown tag [ec] whose 5-byte size field [08 ff ff ff fa] decodes,
    wrapped by the 32-bit shifts, to -6. *)
Definition hang_chunk : list Z := ebml_header ++ [0xec; 0x08; 0xff; 0xff; 0xff; 0xfa].

(** * Properties *)

(** ** Variable-length integers *)

(** C2 (failing input): the value [2^32], which the vint encoding holds in
    5 bytes ([09 00 00 00 00]), is read back by [vintLength] as a 5-byte
    integer but [expandVint] returns 0: [value << 8] truncates to 32 bits. *)
Theorem vint_roundtrip_fails_2pow32 :
  let b := vint_encode (2 ^ 32) 5 in
  b = [0x09; 0; 0; 0; 0] /\ 2 ^ 32 < 2 ^ (7 * 5) /\
  vintLength b 0 = Some 5 /\ expandVint b 0 5 = Some 0.
Proof. vm_compute. repeat split; reflexivity. Qed.

(** ** Track discovery *)

(** C5 (failing input): a TrackEntry with number 1 and type 1 (video)
    followed by a TrackEntry that has only type 2 (audio): the [ae] tag is a
    container, so [_readTag] returns before the reset on line 125 and the
    audio track is discovered with the number of the other entry. *)
Theorem track_entry_not_reset :
  exists s,
    run [ebml_header ++ track_entry 1 1 ++ [0xae; 0x83; 0x83; 0x81; 2]
         ++ simple_block 1 0 0 0x80 0x55] init = Ret tt s /\
    s.(_track) = Some (mkTrack (Some 1) (Some 2)) /\
    s.(pushed) = [[0x55]].
Proof. eexists. split; [vm_compute; reflexivity | split; reflexivity]. Qed.

(** ** Length fields whose marker byte is zero *)

Lemma vint_scan_zero : vint_scan 0 0 8 = 8.
Proof. reflexivity. Qed.

(** C6 (amended): a zero marker byte is not an error; [vintLength] scans
    past the 8 bits and returns 9 ([TOO_SHORT] when fewer than 9 bytes
    remain), and the size field is then read as a 9-byte integer. *)
Theorem zero_marker_length_nine (b : list Z) (i : Z) :
  at_ b i = Some 0 ->
  vintLength b i = (if i + 9 >? blen b then None else Some 9) /\
  (i + 9 <= blen b -> exists v, _readTagDataSize b i = Some (i + 9, v)).
Proof.
  intros H.
  assert (HL : vintLength b i = (if i + 9 >? blen b then None else Some 9)).
  { unfold vintLength. rewrite H. simpl undef0. rewrite vint_scan_zero. reflexivity. }
  split; [exact HL|].
  intros Hle. unfold _readTagDataSize, expandVint.
  assert (E : (i + 9 >? blen b) = false) by (rewrite Z.gtb_ltb; apply Z.ltb_ge; lia).
  rewrite HL, E, E.
  eexists. reflexivity.
Qed.

(** C6 (counterexample): an EBML header whose size field starts with a zero
    byte is parsed on (as a 9-byte size) and the stream ends normally,
    with no error raised. *)
Theorem zero_marker_no_error :
  exists s, run [[0x1a; 0x45; 0xdf; 0xa3; 0; 0; 0; 0; 0; 0; 0; 0; 0]] init = Ret tt s.
Proof. eexists. vm_compute. reflexivity. Qed.

Lemma zero_marker_witness :
  at_ [0x1a; 0x45; 0xdf; 0xa3; 0; 0; 0; 0; 0; 0; 0; 0; 0] 4 = Some 0 /\
  vintLength [0x1a; 0x45; 0xdf; 0xa3; 0; 0; 0; 0; 0; 0; 0; 0; 0] 4 = Some 9.
Proof.
  split; [reflexivity|].
  rewrite (proj1 (zero_marker_length_nine [0x1a; 0x45; 0xdf; 0xa3; 0; 0; 0; 0; 0; 0; 0; 0; 0] 4
           eq_refl)).
  reflexivity.
Defined.

(** ** Fatal errors on leaves *)

Lemma gtb_false (a b : Z) : a <= b -> (a >? b) = false.
Proof. intros H. rewrite Z.gtb_ltb. apply Z.ltb_ge. lia. Qed.

Lemma discover_pushed (id : string) (data : list Z) (s : state) :
  (discover id data s).(pushed) = s.(pushed).
Proof.
  unfold discover. destruct (_track s); [reflexivity|].
  match goal with |- context [if ?c then _ else _] => destruct c end; reflexivity.
Qed.

(** C7: a fully buffered codec-signature leaf ([63a2]) whose first 8 data
    bytes are not ['OpusHead'] makes [_readTag] throw "Audio codec is not
    Opus!", whatever the track state, without emitting anything. *)
Theorem codec_signature_mismatch (chunk : list Z) (offset : Z) (s : state)
    (id : list Z) (offset1 offset2 dataLength : Z) :
  s.(_ebmlFound) = true ->
  _readEBMLId chunk offset = Some (id, offset1) ->
  hex id = "63a2"%string ->
  _readTagDataSize chunk offset1 = Some (offset2, dataLength) ->
  offset2 + dataLength <= blen chunk ->
  buf_equals (slice (slice chunk offset2 (offset2 + dataLength)) 0 8) OPUS_HEAD = false ->
  exists s', _readTag chunk offset s = Throw NotOpus s' /\ s'.(pushed) = s.(pushed).
Proof.
  intros Hf Hid Hhex Hsz Hle Hneq.
  unfold _readTag. rewrite Hid. cbn [bind get ret modify throw].
  rewrite Hf, Hhex, Hsz. cbn [bind get ret modify throw TAGS assoc TAGS_table String.eqb].
  rewrite (gtb_false _ _ Hle). cbn [bind get ret modify throw].
  cbn [String.eqb Ascii.eqb Bool.eqb]. rewrite Hneq.
  eexists. split; [reflexivity|]. apply discover_pushed.
Qed.

Lemma codec_signature_mismatch_witness :
  exists s', _readTag [0x63; 0xa2; 0x88; 1; 2; 3; 4; 5; 6; 7; 8] 0 (set_ebmlFound true init)
             = Throw NotOpus s' /\ s'.(pushed) = (set_ebmlFound true init).(pushed).
Proof.
  apply (codec_signature_mismatch _ _ _ [0x63; 0xa2] 2 3 8); reflexivity.
Defined.

(** C8: a fully buffered SimpleBlock ([a3]) read while no track has been
    discovered makes [_readTag] throw "No audio track in this webm!" and
    emit nothing.  ([is_audio_complete] of the accumulator is false in every
    reachable state without a track: see [run_track_inv].) *)
Theorem block_before_track (chunk : list Z) (offset : Z) (s : state)
    (id : list Z) (offset1 offset2 dataLength : Z) :
  s.(_ebmlFound) = true ->
  s.(_track) = None ->
  is_audio_complete s.(_incompleteTrack) = false ->
  _readEBMLId chunk offset = Some (id, offset1) ->
  hex id = "a3"%string ->
  _readTagDataSize chunk offset1 = Some (offset2, dataLength) ->
  offset2 + dataLength <= blen chunk ->
  exists s', _readTag chunk offset s = Throw NoAudioTrack s' /\ s'.(pushed) = s.(pushed).
Proof.
  intros Hf Ht Hc Hid Hhex Hsz Hle.
  unfold _readTag. rewrite Hid. cbn [bind get ret modify throw].
  rewrite Hf, Hhex, Hsz. cbn [bind get ret modify throw TAGS assoc TAGS_table String.eqb].
  rewrite (gtb_false _ _ Hle). cbn [bind get ret modify throw].
  cbn [String.eqb Ascii.eqb Bool.eqb].
  cbn [bind get ret modify throw]. unfold discover. rewrite Ht. cbn [String.eqb Ascii.eqb Bool.eqb].
  rewrite Hc. cbn. rewrite Ht. eexists. split; reflexivity.
Qed.

Lemma block_before_track_witness :
  exists s', _readTag [0xa3; 0x81; 0x81] 0 (set_ebmlFound true init)
             = Throw NoAudioTrack s' /\ s'.(pushed) = (set_ebmlFound true init).(pushed).
Proof.
  apply (block_before_track _ _ _ [0xa3] 1 2 1); reflexivity.
Defined.

(** ** State invariants of the demuxer *)

Section Preservation.
(** A property of states kept by every update that [_readTag] and
    [_transform] make. *)
Variable P : state -> Prop.
Hypothesis P_ebmlFound : forall s, P s -> P (set_ebmlFound true s).
Hypothesis P_discover : forall id data s, P s -> P (discover id data s).
Hypothesis P_push : forall s t data u,
    P s -> s.(_track) = Some t -> block_matches data t = true -> P (push_unit u s).
Hypothesis P_skipUntil : forall k s, P s -> P (set_skipUntil k s).
Hypothesis P_count : forall n s, P s -> P (set_count n s).
Hypothesis P_remainder : forall r s, P s -> P (set_remainder r s).
Hypothesis P_length : forall n s, P s -> P (set_length n s).

Lemma readTag_pres (chunk : list Z) (offset : Z) (s : state) :
  P s -> P (final (_readTag chunk offset s)).
Proof.
  intros H. unfold _readTag.
  repeat (mred; try dmatch); mred; eauto.
Qed.

Lemma tag_loop_pres (fuel : nat) (chunk : list Z) (offset : Z) (s : state) :
  P s -> P (final (tag_loop fuel chunk offset s)).
Proof.
  revert offset s. induction fuel as [|f IH]; intros offset s H; [exact H|].
  cbn [tag_loop]. unfold bind.
  pose proof (readTag_pres chunk offset s H) as H1.
  destruct (_readTag chunk offset s) as [r s1|e s1]; [|exact H1].
  destruct r as [|o sk]; [exact H1|].
  destruct (truthy sk); [mred; auto|].
  destruct (o =? 0); [exact H1|]. apply IH, H1.
Qed.

Lemma transform_pres (chunk : list Z) (s : state) :
  P s -> P (final (_transform chunk s)).
Proof.
  intros H. unfold _transform. mred.
  assert (H0 : P (set_length (_length s + blen chunk) s)) by auto.
  destruct (_remainder (set_length (_length s + blen chunk) s)) as [r|] eqn:Er; mred;
  [ assert (H1 : P (set_remainder None (set_length (_length s + blen chunk) s))) by auto
  | pose proof H0 as H1 ];
  match goal with |- context [match _skipUntil ?st with _ => _ end] =>
    destruct (_skipUntil st) as [k|] end;
  repeat (mred; try dmatch); mred; auto;
  unfold bind;
  match goal with |- context [tag_loop ?f ?c ?o ?st] =>
    pose proof (tag_loop_pres f c o st ltac:(auto)) as HL;
    destruct (tag_loop f c o st) end; mred; auto.
Qed.

Lemma run_pres (chunks : list (list Z)) (s : state) :
  P s -> P (final (run chunks s)).
Proof.
  revert s. induction chunks as [|c cs IH]; intros s H; [exact H|].
  cbn [run]. unfold bind. pose proof (transform_pres c s H) as H1.
  destruct (_transform c s); [apply IH|]; exact H1.
Qed.
End Preservation.

(** Without a discovered track, the accumulator never holds a complete
    audio track: [discover] promotes it as soon as it does. *)
Lemma run_track_inv (chunks : list (list Z)) :
  track_inv (final (run chunks init)).
Proof.
  apply run_pres; unfold track_inv; cbn; auto.
  - intros id data s H. unfold discover. destruct (_track s) eqn:E; [rewrite E; discriminate|].
    cbv zeta. match goal with |- context [is_audio_complete ?it] =>
      destruct (is_audio_complete it) eqn:Ec end; cbn; [discriminate | auto].
Qed.

Lemma toInt32_small (z : Z) : - 2 ^ 31 <= z < 2 ^ 31 -> toInt32 z = z.
Proof.
  intros H. unfold toInt32. cbv zeta.
  destruct (Z_lt_le_dec z 0) as [Hn|Hp].
  - rewrite <- (Z.mod_unique z (2 ^ 32) (-1) (z + 2 ^ 32)) by lia.
    match goal with |- context [?a >=? ?b] => destruct (Z.geb_spec a b) end;
      cbv iota beta; lia.
  - rewrite Z.mod_small by lia.
    match goal with |- context [?a >=? ?b] => destruct (Z.geb_spec a b) end;
      cbv iota beta; lia.
Qed.

Lemma js_and_15 (x : Z) : 0 <= js_and x 15 < 16.
Proof.
  unfold js_and. change (toInt32 15) with 15.
  change 15 with (Z.ones 4). rewrite Z.land_ones by lia.
  pose proof (Z.mod_pos_bound (toInt32 x) (2 ^ 4) ltac:(lia)).
  rewrite toInt32_small; lia.
Qed.

(** C10: a unit is pushed only when [data[0] & 0xF] equals the number of
    the discovered track, and the track never changes once set: whenever
    the stream (with any chunking, ending normally or by an error) has
    emitted a unit, the discovered track number is a 4-bit value.  So a
    track numbered 16 or more never gets a unit emitted. *)
Theorem emitted_track_number_4bit (chunks : list (list Z)) :
  let s := final (run chunks init) in
  s.(pushed) = [] \/
  exists t n, s.(_track) = Some t /\ t.(number) = Some n /\ 0 <= n < 16.
Proof.
  apply (run_pres emitted_track_ok); unfold emitted_track_ok; cbn; auto.
  - intros id data s [H|H]; [left; rewrite discover_pushed; exact H|right].
    destruct H as (t & n & Ht & Hn & Hr). exists t, n.
    unfold discover. rewrite Ht. auto.
  - intros s t data u _ Ht Hb. right. exists t.
    unfold block_matches in Hb. destruct (number t) as [n|]; [|discriminate].
    exists n. apply Z.eqb_eq in Hb. subst n. repeat split; try apply js_and_15; auto.
Qed.

(** ** Buffers: reading inside a prefix *)

Lemma blen_app (a b : list Z) : blen (a ++ b) = blen a + blen b.
Proof. unfold blen. rewrite length_app. lia. Qed.

Lemma blen_nonneg (a : list Z) : 0 <= blen a.
Proof. unfold blen. lia. Qed.

Lemma at_app_l (B c : list Z) (p : Z) : p < blen B -> at_ (B ++ c) p = at_ B p.
Proof.
  unfold at_, blen. intros H. destruct (p <? 0) eqn:E; [reflexivity|].
  apply Z.ltb_ge in E. apply nth_error_app1. lia.
Qed.

Lemma vint_scan_range (b i : Z) (f : nat) : i <= vint_scan b i f <= i + Z.of_nat f.
Proof.
  revert i. induction f as [|f IH]; intros i; cbn [vint_scan]; [lia|].
  destruct (_ =? 0); [specialize (IH (i + 1)); lia | lia].
Qed.

Lemma vintLength_some (B : list Z) (p i : Z) :
  vintLength B p = Some i -> 1 <= i <= 9 /\ p + i <= blen B.
Proof.
  unfold vintLength. pose proof (vint_scan_range (undef0 (at_ B p)) 0 8).
  destruct (Z.gtb_spec (p + (vint_scan (undef0 (at_ B p)) 0 8 + 1)) (blen B));
    intros H'; [discriminate|]. injection H' as <-. cbn in *. lia.
Qed.

Lemma vintLength_app (B c : list Z) (p i : Z) :
  vintLength B p = Some i -> vintLength (B ++ c) p = Some i.
Proof.
  intros H. pose proof (vintLength_some _ _ _ H) as [Hi Hp].
  revert H. unfold vintLength. rewrite at_app_l by lia. rewrite blen_app.
  pose proof (blen_nonneg c).
  destruct (Z.gtb_spec (p + (vint_scan (undef0 (at_ B p)) 0 8 + 1)) (blen B));
    intros H'; [discriminate|]. injection H' as <-.
  destruct (Z.gtb_spec (p + (vint_scan (undef0 (at_ B p)) 0 8 + 1)) (blen B + blen c));
    [lia | reflexivity].
Qed.

Lemma expand_loop_ext (B1 B2 : list Z) (v i : Z) (n : nat) :
  (forall j, i <= j < i + Z.of_nat n -> at_ B1 j = at_ B2 j) ->
  expand_loop B1 v i n = expand_loop B2 v i n.
Proof.
  revert v i. induction n as [|n IH]; intros v i H; cbn [expand_loop]; [reflexivity|].
  rewrite H by lia. apply IH. intros j Hj. apply H. lia.
Qed.

Lemma expandVint_app (B c : list Z) (s e v : Z) :
  expandVint B s e = Some v -> expandVint (B ++ c) s e = Some v.
Proof.
  unfold expandVint. destruct (vintLength B s) as [l|] eqn:El; [|discriminate].
  rewrite (vintLength_app _ c _ _ El). pose proof (vintLength_some _ _ _ El).
  rewrite blen_app. pose proof (blen_nonneg c).
  destruct (Z.gtb_spec e (blen B)); [discriminate|].
  destruct (Z.gtb_spec e (blen B + blen c)); [lia|].
  intros H'. rewrite <- H'. rewrite at_app_l by lia. f_equal.
  apply expand_loop_ext. intros j Hj. apply at_app_l. lia.
Qed.

Lemma firstn_skipn_app (B c : list Z) (n k : nat) :
  (n + k <= List.length B)%nat -> firstn k (skipn n (B ++ c)) = firstn k (skipn n B).
Proof.
  intros H. rewrite skipn_app, firstn_app, length_skipn.
  replace (k - (List.length B - n))%nat with 0%nat by lia. rewrite firstn_O, app_nil_r.
  reflexivity.
Qed.

Lemma slice_app (B c : list Z) (s e : Z) :
  0 <= s -> 0 <= e <= blen B -> slice (B ++ c) s e = slice B s e.
Proof.
  intros Hs He. unfold slice, rel_index. rewrite blen_app.
  pose proof (blen_nonneg c).
  replace (s <? 0) with false by (symmetry; apply Z.ltb_ge; lia).
  replace (e <? 0) with false by (symmetry; apply Z.ltb_ge; lia).
  destruct (Z_le_gt_dec s (blen B)).
  - rewrite (Z.min_l s (blen B + blen c)), (Z.min_l s (blen B)),
      (Z.min_l e (blen B + blen c)), (Z.min_l e (blen B)) by lia.
    apply firstn_skipn_app. unfold blen in *. lia.
  - rewrite (Z.min_r s (blen B)), (Z.min_l e (blen B)), (Z.min_l e (blen B + blen c)) by lia.
    replace (Z.to_nat (e - blen B)) with 0%nat by lia.
    replace (Z.to_nat (e - Z.min s (blen B + blen c))) with 0%nat by lia.
    reflexivity.
Qed.

Lemma readEBMLId_app (B c : list Z) (p : Z) (id : list Z) (o : Z) :
  0 <= p -> _readEBMLId B p = Some (id, o) -> _readEBMLId (B ++ c) p = Some (id, o).
Proof.
  unfold _readEBMLId. intros Hp. destruct (vintLength B p) as [i|] eqn:E; [|discriminate].
  rewrite (vintLength_app _ c _ _ E). pose proof (vintLength_some _ _ _ E).
  rewrite slice_app by lia. auto.
Qed.

Lemma readTagDataSize_app (B c : list Z) (p o dl : Z) :
  _readTagDataSize B p = Some (o, dl) -> _readTagDataSize (B ++ c) p = Some (o, dl).
Proof.
  unfold _readTagDataSize. destruct (vintLength B p) as [i|] eqn:E; [|discriminate].
  rewrite (vintLength_app _ c _ _ E).
  destruct (expandVint B p (p + i)) as [v|] eqn:Ev; [|discriminate].
  rewrite (expandVint_app _ c _ _ _ Ev). auto.
Qed.

(** ** The EBML header gate *)

Lemma discover_ebmlFound (id : string) (data : list Z) (s : state) :
  (discover id data s).(_ebmlFound) = s.(_ebmlFound).
Proof.
  unfold discover. destruct (_track s); [reflexivity|].
  cbv zeta. destruct (is_audio_complete _); reflexivity.
Qed.

Lemma readTag_gate (chunk : list Z) (offset : Z) (s : state) :
  (s.(_ebmlFound) = true \/
   exists id o1, _readEBMLId chunk offset = Some (id, o1) /\ hex id = EBML_ID) ->
  (final (_readTag chunk offset s)).(_ebmlFound) = true /\
  (forall s', _readTag chunk offset s <> Throw MissingEBML s').
Proof.
  intros H. unfold _readTag.
  destruct (_readEBMLId chunk offset) as [[id o1]|] eqn:E.
  - assert (Hg : s.(_ebmlFound) = true \/ hex id = EBML_ID).
    { destruct H as [H|(id' & o' & Hid & Hh)]; [left; exact H|right].
      injection Hid as -> ->. exact Hh. }
    clear H. mred.
    destruct (_ebmlFound s) eqn:Ef; mred.
    + repeat (mred; try dmatch); mred;
        (split; [cbn [_ebmlFound push_unit]; rewrite ?discover_ebmlFound; assumption
                | intros ? ?; discriminate]).
    + destruct Hg as [Hg|Hg]; [discriminate|]. rewrite Hg. cbn [String.eqb EBML_ID Ascii.eqb Bool.eqb].
      repeat (mred; try dmatch); mred;
        (split; [cbn [_ebmlFound push_unit]; rewrite ?discover_ebmlFound; reflexivity
                | intros ? ?; discriminate]).
  - destruct H as [H|(id' & o' & Hid & _)]; [|discriminate].
    mred. split; [exact H | intros ? ?; discriminate].
Qed.

Lemma tag_loop_gate (fuel : nat) (chunk : list Z) (offset : Z) (s : state) :
  (s.(_ebmlFound) = true \/
   (fuel <> O /\ exists id o1, _readEBMLId chunk offset = Some (id, o1) /\ hex id = EBML_ID)) ->
  (final (tag_loop fuel chunk offset s)).(_ebmlFound) = true /\
  (forall s', tag_loop fuel chunk offset s <> Throw MissingEBML s').
Proof.
  revert offset s. induction fuel as [|f IH]; intros offset s H.
  - destruct H as [H|[H _]]; [|congruence]. cbn. split; [exact H | intros ? ?; discriminate].
  - cbn [tag_loop]. unfold bind.
    assert (H' : s.(_ebmlFound) = true \/
                 exists id o1, _readEBMLId chunk offset = Some (id, o1) /\ hex id = EBML_ID)
      by (destruct H as [H|[_ H]]; auto).
    pose proof (readTag_gate chunk offset s H') as [H1 H2].
    destruct (_readTag chunk offset s) as [r s1|e s1] eqn:E.
    + destruct r as [|o sk]; mred.
      * split; [exact H1 | intros ? ?; discriminate].
      * destruct (truthy sk); mred; [split; [exact H1 | intros ? ?; discriminate]|].
        destruct (o =? 0); mred; [split; [exact H1 | intros ? ?; discriminate]|].
        apply IH. left. exact H1.
    + split; [exact H1|]. intros s' Hc. injection Hc as He _. subst e. exact (H2 s1 eq_refl).
Qed.

Lemma transform_eq (c : list Z) (s : state) :
  _transform c s =
  let W := working c s in
  match s.(_skipUntil) with
  | Some k =>
      if negb (k =? 0) then
        if s.(_length) + blen c >? k then
          bind (tag_loop (loop_fuel W) W (k - s.(_count))) (finish W)
               (set_skipUntil None (entered c s))
        else Ret tt (set_count (s.(_count) + blen W) (entered c s))
      else bind (tag_loop (loop_fuel W) W 0) (finish W) (entered c s)
  | None => bind (tag_loop (loop_fuel W) W 0) (finish W) (entered c s)
  end.
Proof.
  unfold _transform, working, entered. destruct s as [r n k0 sk tr it ef pu].
  destruct r; cbn; destruct sk as [k|]; cbn; try reflexivity;
    destruct (negb (k =? 0)); cbn; try reflexivity;
    destruct (n + blen c >? k); reflexivity.
Qed.

Lemma bind_finish_gate (m : M Z) (W : list Z) (s : state) :
  (final (m s)).(_ebmlFound) = true /\ (forall s', m s <> Throw MissingEBML s') ->
  (final (bind m (finish W) s)).(_ebmlFound) = true /\
  (forall s', bind m (finish W) s <> Throw MissingEBML s').
Proof.
  unfold bind. destruct (m s) as [a s1|e s1]; mred; intros [H1 H2].
  - split; [exact H1 | intros ? ?; discriminate].
  - split; [exact H1|]. intros s' Hc. injection Hc as He _. subst e. exact (H2 s1 eq_refl).
Qed.

Lemma transform_gate (c : list Z) (s : state) :
  s.(_ebmlFound) = true ->
  (final (_transform c s)).(_ebmlFound) = true /\
  (forall s', _transform c s <> Throw MissingEBML s').
Proof.
  intros H. rewrite transform_eq. cbv zeta.
  destruct (_skipUntil s) as [k|];
    [destruct (negb (k =? 0)); [destruct (_length s + blen c >? k)|]|];
    try (apply bind_finish_gate, tag_loop_gate; left; exact H).
  cbn. split; [exact H | intros ? ?; discriminate].
Qed.

Lemma run_gate (chunks : list (list Z)) (s : state) :
  s.(_ebmlFound) = true ->
  (final (run chunks s)).(_ebmlFound) = true /\
  (forall s', run chunks s <> Throw MissingEBML s').
Proof.
  revert s. induction chunks as [|c cs IH]; intros s H.
  - cbn. split; [exact H | intros ? ?; discriminate].
  - cbn [run]. unfold bind. pose proof (transform_gate c s H) as [H1 H2].
    destruct (_transform c s) as [a s1|e s1]; [apply IH, H1|].
    split; [exact H1 | exact H2].
Qed.

Lemma slice_from_0 (W : list Z) : slice_from W 0 = W.
Proof.
  unfold slice_from, slice, rel_index. pose proof (blen_nonneg W).
  replace (0 <? 0) with false by reflexivity.
  replace (blen W <? 0) with false by (symmetry; apply Z.ltb_ge; lia).
  rewrite (Z.min_l 0 (blen W)) by lia. rewrite Z.min_id, Z.sub_0_r. cbn [skipn Z.to_nat].
  apply firstn_all2. unfold blen. lia.
Qed.

Lemma working_pre (r : option (list Z)) (P c : list Z) :
  remainder_is r P -> working c (pre_state r P) = P ++ c.
Proof. destruct r; cbn; intros ->; reflexivity. Qed.

Lemma transform_pre_loop (r : option (list Z)) (P c : list Z) :
  remainder_is r P ->
  _transform c (pre_state r P) =
  bind (tag_loop (loop_fuel (P ++ c)) (P ++ c) 0) (finish (P ++ c))
       (entered c (pre_state r P)).
Proof.
  intros Hr. rewrite transform_eq. cbv zeta. rewrite (working_pre _ _ _ Hr). reflexivity.
Qed.

Lemma transform_pre_incomplete (r : option (list Z)) (P c : list Z) :
  remainder_is r P -> vintLength (P ++ c) 0 = None ->
  _transform c (pre_state r P) = Ret tt (pre_state (Some (P ++ c)) (P ++ c)).
Proof.
  intros Hr Hv. rewrite (transform_pre_loop _ _ _ Hr).
  unfold loop_fuel. cbn [tag_loop]. unfold bind at 2.
  unfold _readTag at 1, _readEBMLId at 1. rewrite Hv. mred.
  unfold finish, modify. rewrite slice_from_0. unfold pre_state, entered. cbn. rewrite blen_app. reflexivity.
Qed.

Lemma transform_pre_bad (r : option (list Z)) (P c : list Z) (il : Z) :
  remainder_is r P -> vintLength (P ++ c) 0 = Some il ->
  hex (slice (P ++ c) 0 il) <> EBML_ID ->
  exists s', _transform c (pre_state r P) = Throw MissingEBML s' /\ s'.(pushed) = [].
Proof.
  intros Hr Hv Hh. rewrite (transform_pre_loop _ _ _ Hr).
  unfold loop_fuel. cbn [tag_loop]. unfold bind at 2.
  unfold _readTag at 1, _readEBMLId at 1. rewrite Hv. mred.
  cbn [_ebmlFound entered pre_state set_remainder set_length].
  apply String.eqb_neq in Hh. unfold EBML_ID in Hh. rewrite Z.add_0_l.
  unfold bind, get, ret, modify, throw. cbn [_ebmlFound entered pre_state set_remainder set_length].
  rewrite Hh. eexists. split; reflexivity.
Qed.

Lemma transform_pre_good (r : option (list Z)) (P c : list Z) (il : Z) :
  remainder_is r P -> vintLength (P ++ c) 0 = Some il ->
  hex (slice (P ++ c) 0 il) = EBML_ID ->
  (final (_transform c (pre_state r P))).(_ebmlFound) = true /\
  (forall s', _transform c (pre_state r P) <> Throw MissingEBML s').
Proof.
  intros Hr Hv Hh. rewrite (transform_pre_loop _ _ _ Hr).
  apply bind_finish_gate, tag_loop_gate. right. split; [unfold loop_fuel; discriminate|].
  exists (slice (P ++ c) 0 il), (0 + il). unfold _readEBMLId. rewrite Hv. auto.
Qed.

Lemma header_gate_from (chunks : list (list Z)) :
  forall r P il,
  remainder_is r P -> vintLength P 0 = None ->
  vintLength (P ++ List.concat chunks) 0 = Some il ->
  (hex (slice (P ++ List.concat chunks) 0 il) <> EBML_ID ->
   exists s, run chunks (pre_state r P) = Throw MissingEBML s /\ s.(pushed) = []) /\
  (hex (slice (P ++ List.concat chunks) 0 il) = EBML_ID ->
   (final (run chunks (pre_state r P))).(_ebmlFound) = true /\
   (forall s, run chunks (pre_state r P) <> Throw MissingEBML s)).
Proof.
  induction chunks as [|c cs IH]; intros r P il Hr HP HS.
  - cbn [List.concat] in HS. rewrite app_nil_r in HS. congruence.
  - cbn [List.concat] in *. rewrite app_assoc in *. cbn [run]. unfold bind.
    destruct (vintLength (P ++ c) 0) as [il'|] eqn:Ew.
    + pose proof (vintLength_app _ (List.concat cs) _ _ Ew) as Hw.
      rewrite HS in Hw. injection Hw as <-.
      pose proof (vintLength_some _ _ _ Ew) as Hb.
      rewrite (slice_app (P ++ c) (List.concat cs) 0 il) by lia.
      split.
      * intros Hh. destruct (transform_pre_bad r P c il Hr Ew Hh) as (s' & E & Hp).
        rewrite E. eauto.
      * intros Hh. pose proof (transform_pre_good r P c il Hr Ew Hh) as [H1 H2].
        destruct (_transform c (pre_state r P)) as [a s1|e s1]; [apply run_gate, H1|].
        split; [exact H1|]. intros s' Hc. injection Hc as He _. subst e.
        exact (H2 s1 eq_refl).
    + rewrite (transform_pre_incomplete r P c Hr Ew).
      apply (IH (Some (P ++ c)) (P ++ c) il eq_refl Ew HS).
Qed.

(** C4: if the first complete tag ID of the stream (at offset 0; it may be
    split over any number of chunks) is not the EBML ID [1a45dfa3], the
    demuxer throws "Did not find the EBML tag at the start of the stream"
    with nothing emitted; if it is, [_ebmlFound] is set and that error is
    never thrown, for every chunking. *)
Theorem header_gate (chunks : list (list Z)) (il : Z) :
  vintLength (List.concat chunks) 0 = Some il ->
  (hex (slice (List.concat chunks) 0 il) <> "1a45dfa3"%string ->
   exists s, run chunks init = Throw MissingEBML s /\ s.(pushed) = []) /\
  (hex (slice (List.concat chunks) 0 il) = "1a45dfa3"%string ->
   (final (run chunks init)).(_ebmlFound) = true /\
   (forall s, run chunks init <> Throw MissingEBML s)).
Proof.
  intros H. change init with (pre_state None []).
  apply (header_gate_from chunks None [] il eq_refl eq_refl H).
Qed.

Lemma header_gate_witness :
  vintLength (List.concat [[0x1a; 0x45]; [0xdf; 0xa3; 0x80]]) 0 = Some 4 /\
  hex (slice (List.concat [[0x1a; 0x45]; [0xdf; 0xa3; 0x80]]) 0 4) = "1a45dfa3"%string /\
  (final (run [[0x1a; 0x45]; [0xdf; 0xa3; 0x80]] init)).(_ebmlFound) = true.
Proof.
  split; [reflexivity|]. split; [reflexivity|].
  apply (proj2 (header_gate [[0x1a; 0x45]; [0xdf; 0xa3; 0x80]] 4 eq_refl) eq_refl).
Defined.

(** ** The buffer from an offset on, and the positions the walker visits *)

Lemma blen_drop (k : Z) (B : list Z) : 0 <= k <= blen B -> blen (dropZ k B) = blen B - k.
Proof. unfold blen, dropZ. intros H. rewrite length_skipn. lia. Qed.

Lemma at_drop (k o : Z) (B : list Z) : 0 <= k -> 0 <= o -> at_ (dropZ k B) o = at_ B (k + o).
Proof.
  intros Hk Ho. unfold at_, dropZ.
  replace (o <? 0) with false by (symmetry; apply Z.ltb_ge; lia).
  replace (k + o <? 0) with false by (symmetry; apply Z.ltb_ge; lia).
  rewrite nth_error_skipn. f_equal. lia.
Qed.

Lemma vintLength_drop (k o : Z) (B : list Z) :
  0 <= k <= blen B -> 0 <= o -> vintLength (dropZ k B) o = vintLength B (k + o).
Proof.
  intros Hk Ho. unfold vintLength. rewrite at_drop, blen_drop by lia.
  destruct (Z.gtb_spec (o + (vint_scan (undef0 (at_ B (k + o))) 0 8 + 1)) (blen B - k));
  destruct (Z.gtb_spec (k + o + (vint_scan (undef0 (at_ B (k + o))) 0 8 + 1)) (blen B));
    solve [reflexivity | lia].
Qed.

Lemma expand_loop_drop (k : Z) (B : list Z) (v i : Z) (n : nat) :
  0 <= k -> 0 <= i -> expand_loop (dropZ k B) v i n = expand_loop B v (k + i) n.
Proof.
  revert v i. induction n as [|n IH]; intros v i Hk Hi; cbn [expand_loop]; [reflexivity|].
  rewrite at_drop by lia. rewrite IH by lia. f_equal. lia.
Qed.

Lemma expandVint_drop (k s e : Z) (B : list Z) :
  0 <= k <= blen B -> 0 <= s -> expandVint (dropZ k B) s e = expandVint B (k + s) (k + e).
Proof.
  intros Hk Hs. unfold expandVint. rewrite vintLength_drop by lia.
  destruct (vintLength B (k + s)) as [l|]; [|reflexivity].
  rewrite blen_drop by lia.
  destruct (Z.gtb_spec e (blen B - k)); destruct (Z.gtb_spec (k + e) (blen B));
    try lia; [reflexivity|].
  rewrite at_drop, expand_loop_drop by lia.
  replace (k + (s + 1)) with (k + s + 1) by lia.
  replace (e - (s + 1)) with (k + e - (k + s + 1)) by lia. reflexivity.
Qed.

Lemma slice_drop (k s e : Z) (B : list Z) :
  0 <= k <= blen B -> 0 <= s -> 0 <= e -> slice (dropZ k B) s e = slice B (k + s) (k + e).
Proof.
  intros Hk Hs He. unfold slice, rel_index. rewrite blen_drop by lia.
  replace (s <? 0) with false by (symmetry; apply Z.ltb_ge; lia).
  replace (e <? 0) with false by (symmetry; apply Z.ltb_ge; lia).
  replace (k + s <? 0) with false by (symmetry; apply Z.ltb_ge; lia).
  replace (k + e <? 0) with false by (symmetry; apply Z.ltb_ge; lia).
  unfold dropZ. rewrite skipn_skipn.
  replace (Z.to_nat (Z.min e (blen B - k) - Z.min s (blen B - k)))
    with (Z.to_nat (Z.min (k + e) (blen B) - Z.min (k + s) (blen B))) by lia.
  f_equal. f_equal. lia.
Qed.

Lemma readEBMLId_drop (k o : Z) (B : list Z) :
  0 <= k <= blen B -> 0 <= o ->
  _readEBMLId (dropZ k B) o =
  match _readEBMLId B (k + o) with Some (id, o1) => Some (id, o1 - k) | None => None end.
Proof.
  intros Hk Ho. unfold _readEBMLId. rewrite vintLength_drop by lia.
  destruct (vintLength B (k + o)) as [i|] eqn:E; [|reflexivity].
  pose proof (vintLength_some _ _ _ E). rewrite slice_drop by lia.
  replace (k + (o + i)) with (k + o + i) by lia. f_equal. f_equal. lia.
Qed.

Lemma readTagDataSize_drop (k o : Z) (B : list Z) :
  0 <= k <= blen B -> 0 <= o ->
  _readTagDataSize (dropZ k B) o =
  match _readTagDataSize B (k + o) with Some (o2, dl) => Some (o2 - k, dl) | None => None end.
Proof.
  intros Hk Ho. unfold _readTagDataSize. rewrite vintLength_drop by lia.
  destruct (vintLength B (k + o)) as [i|] eqn:E; [|reflexivity].
  rewrite expandVint_drop by lia. replace (k + (o + i)) with (k + o + i) by lia.
  destruct (expandVint B (k + o) (k + o + i)); [|reflexivity]. f_equal. f_equal. lia.
Qed.

Lemma readEBMLId_bounds (B : list Z) (p o1 : Z) (id : list Z) :
  _readEBMLId B p = Some (id, o1) -> p + 1 <= o1 <= blen B.
Proof.
  unfold _readEBMLId. destruct (vintLength B p) as [i|] eqn:E; [|discriminate].
  pose proof (vintLength_some _ _ _ E). intros H'. injection H' as _ <-. lia.
Qed.

Lemma readTagDataSize_bounds (B : list Z) (p o2 dl : Z) :
  _readTagDataSize B p = Some (o2, dl) -> p + 1 <= o2 <= blen B.
Proof.
  unfold _readTagDataSize. destruct (vintLength B p) as [i|] eqn:E; [|discriminate].
  pose proof (vintLength_some _ _ _ E).
  destruct (expandVint B p (p + i)); [|discriminate]. intros H'. injection H' as <- _. lia.
Qed.

Lemma header_bounds (B : list Z) (p o2 dl : Z) (id : list Z) :
  header B p = Some (id, o2, dl) -> p + 2 <= o2 <= blen B.
Proof.
  unfold header. destruct (_readEBMLId B p) as [[id' o1]|] eqn:E1; [|discriminate].
  destruct (_readTagDataSize B o1) as [[o2' dl']|] eqn:E2; [|discriminate].
  intros H. injection H as -> -> ->.
  pose proof (readEBMLId_bounds _ _ _ _ E1). pose proof (readTagDataSize_bounds _ _ _ _ E2). lia.
Qed.

Lemma gtb_shift (a b k d : Z) : (a - k >? b - k + d) = (a >? b + d).
Proof. destruct (Z.gtb_spec (a - k) (b - k + d)), (Z.gtb_spec a (b + d)); lia. Qed.

Lemma gtb_shift' (a b k d : Z) : (b - k + d >? a - k) = (b + d >? a).
Proof. destruct (Z.gtb_spec (b - k + d) (a - k)), (Z.gtb_spec (b + d) a); lia. Qed.

(** [_readTag] on the buffer from [k] on, at a relative offset, does what it
    does on the whole buffer at the absolute offset, if [_count] is larger
    by [k] (the [_skipUntil] it returns is then the same). *)
Lemma readTag_drop (k o : Z) (B : list Z) (s1 s2 : state) :
  0 <= k <= blen B -> 0 <= o -> leaf_ok B (k + o) -> agree k s1 s2 ->
  rel_out (shift_res k) k (_readTag (dropZ k B) o s1) (_readTag B (k + o) s2).
Proof.
  intros Hk Ho Hl Hag.
  destruct s1 as [r1 n1 c1 sk1 tr1 it1 ef1 pu1], s2 as [r2 n2 c2 sk2 tr2 it2 ef2 pu2].
  unfold agree in Hag; cbn in Hag. destruct Hag as (-> & -> & -> & -> & -> & ->).
  unfold _readTag. rewrite readEBMLId_drop by lia.
  destruct (_readEBMLId B (k + o)) as [[id o1]|] eqn:E1; [|close_rel].
  pose proof (readEBMLId_bounds _ _ _ _ E1).
  rewrite readTagDataSize_drop by lia. replace (k + (o1 - k)) with o1 by lia.
  destruct (_readTagDataSize B o1) as [[o2 dl]|] eqn:E2;
    [|unfold bind, get, ret, modify, throw; cbn; repeat (dmatch_in; cbn); close_rel].
  pose proof (readTagDataSize_bounds _ _ _ _ E2).
  assert (Hh : header B (k + o) = Some (id, o2, dl)) by (unfold header; rewrite E1, E2; reflexivity).
  destruct (TAGS (hex id)) as [[|]|] eqn:Et.
  - unfold bind, get, ret, modify, throw; cbn; repeat (dmatch_in; cbn); close_rel.
  - assert (0 <= dl) by (apply (Hl id o2 dl Hh); rewrite Et; discriminate).
    rewrite blen_drop, gtb_shift', slice_drop by lia.
    replace (k + (o2 - k)) with o2 by lia. replace (k + (o2 - k + dl)) with (o2 + dl) by lia.
    unfold bind, get, ret, modify, throw, discover, is_audio_complete; cbn;
      repeat (dmatch_in; cbn); close_rel.
  - assert (0 <= dl) by (apply (Hl id o2 dl Hh); rewrite Et; discriminate).
    rewrite blen_drop, gtb_shift by lia.
    unfold bind, get, ret, modify, throw; cbn; repeat (dmatch_in; cbn); close_rel.
Qed.

Lemma tag_next_ge (B : list Z) (p q : Z) :
  leaf_ok B p -> tag_next B p = Some q -> p + 2 <= q.
Proof.
  unfold tag_next. intros Hl. destruct (header B p) as [[[id o2] dl]|] eqn:Eh; [|discriminate].
  pose proof (header_bounds _ _ _ _ _ Eh). intros Hq. injection Hq as <-.
  destruct (TAGS (hex id)) as [[|]|] eqn:Et; try lia;
    (assert (0 <= dl) by (apply (Hl id o2 dl Eh); rewrite Et; discriminate); lia).
Qed.

Lemma reach_first (B : list Z) (p q r : Z) :
  tag_next B p = Some q -> reach B q r -> reach B p r.
Proof.
  intros Hn Hr. induction Hr as [|r r' Hr IH Hn'].
  - apply (reach_step B p p q); [constructor | exact Hn].
  - apply (reach_step B p r r'); assumption.
Qed.

Lemma good_next (B : list Z) (p q : Z) : good B p -> tag_next B p = Some q -> good B q.
Proof.
  intros [Hp Hg] Hn. pose proof (tag_next_ge B p q (Hg p (reach_refl B p)) Hn).
  split; [lia|]. intros r Hr. apply Hg. apply (reach_first B p q r Hn Hr).
Qed.

(** What a [Res] of [_readTag] says about the tag it read. *)
Lemma readTag_res (B : list Z) (p : Z) (s s' : state) (r : tagResult) :
  leaf_ok B p -> _readTag B p s = Ret r s' ->
  match r with
  | TOO_SHORT => True
  | Res o None => tag_next B p = Some o /\ o <= blen B
  | Res o (Some t) =>
      tag_next B p = Some (t - s.(_count)) /\ blen B <= t - s.(_count) /\
      p + 2 <= o <= t - s.(_count) /\ o <= blen B
  end.
Proof.
  intros Hl. unfold _readTag.
  destruct (_readEBMLId B p) as [[id o1]|] eqn:E1; [|unfold ret; intros H; injection H; intros; subst; exact I].
  destruct (_readTagDataSize B o1) as [[o2 dl]|] eqn:E2;
    [|unfold bind, get, ret, modify, throw; cbn; repeat (dmatch_in; cbn);
      intros H; try discriminate; injection H; intros; subst; exact I].
  assert (Hh : header B p = Some (id, o2, dl)) by (unfold header; rewrite E1, E2; reflexivity).
  pose proof (header_bounds _ _ _ _ _ Hh) as Hb.
  assert (Hn : tag_next B p =
               Some (match TAGS (hex id) with Some true => o2 | _ => o2 + dl end))
    by (unfold tag_next; rewrite Hh; reflexivity).
  assert (Hd : TAGS (hex id) <> Some true -> 0 <= dl) by (apply (Hl id o2 dl Hh)).
  destruct (TAGS (hex id)) as [[|]|] eqn:Et;
    unfold bind, get, ret, modify, throw; cbn; repeat (dmatch_in; cbn);
    intros H; try discriminate; injection H; intros; subst;
    first [exact I
          | specialize (Hd ltac:(discriminate)); zbool;
            repeat split; first [rewrite Hn; f_equal; lia | lia]
          | zbool; repeat split; first [rewrite Hn; f_equal; lia | lia]].
Qed.

Lemma readTag_frame (B : list Z) (p : Z) (s : state) :
  frame (final (_readTag B p s)) = frame s.
Proof.
  apply (readTag_pres (fun x => frame x = frame s)); [..|reflexivity]; intros;
    match goal with H : frame ?x = frame s |- _ =>
      rewrite <- H; destruct x as [? ? ? ? tr ? ? ?]; unfold discover; cbn;
      try destruct tr; cbn; try (destruct (is_audio_complete _)); reflexivity end.
Qed.

Lemma readTag_count (B : list Z) (p : Z) (s : state) :
  (final (_readTag B p s)).(_count) = s.(_count).
Proof.
  pose proof (readTag_frame B p s) as H. unfold frame in H. injection H. auto.
Qed.

Lemma readTag_skipUntil (B : list Z) (p : Z) (s : state) :
  (final (_readTag B p s)).(_skipUntil) = s.(_skipUntil).
Proof.
  pose proof (readTag_frame B p s) as H. unfold frame in H. injection H. auto.
Qed.

(** A [Res] the loop goes on from: its skip is absent (with a
    non-negative [_count], a skip target is never 0). *)
Lemma readTag_step (B : list Z) (p o : Z) (sk : option Z) (s s' : state) :
  0 <= p -> leaf_ok B p -> 0 <= s.(_count) -> _readTag B p s = Ret (Res o sk) s' ->
  truthy sk = false -> sk = None /\ tag_next B p = Some o /\ p + 2 <= o <= blen B.
Proof.
  intros Hp Hl Hc E Ht. pose proof (readTag_res B p s s' _ Hl E) as R.
  destruct sk as [t|].
  - destruct R as (_ & _ & ? & _). cbn in Ht. apply negb_false_iff, Z.eqb_eq in Ht. lia.
  - destruct R as [Hn Hb]. pose proof (tag_next_ge B p o Hl Hn). auto.
Qed.

(** The loop on the buffer from [k] on is the loop on the whole buffer. *)
Lemma tag_loop_drop (f : nat) (k o : Z) (B : list Z) (s1 s2 : state) :
  0 <= k <= blen B -> 0 <= o -> good B (k + o) -> 0 <= s2.(_count) -> agree k s1 s2 ->
  rel_out (fun q => k + q) k (tag_loop f (dropZ k B) o s1) (tag_loop f B (k + o) s2).
Proof.
  revert o s1 s2. induction f as [|f IH]; intros o s1 s2 Hk Ho Hg Hc Hag.
  - cbn. split; auto.
  - cbn [tag_loop]. unfold bind.
    pose proof (readTag_drop k o B s1 s2 Hk Ho (proj2 Hg _ (reach_refl _ _)) Hag) as R.
    pose proof (readTag_count B (k + o) s2) as Hc2.
    destruct (_readTag (dropZ k B) o s1) as [r1 t1|e1 t1],
             (_readTag B (k + o) s2) as [r2 t2|e2 t2] eqn:E2;
      cbn [rel_out final] in R, Hc2; try contradiction; [|exact R].
    destruct R as [-> Ht]. destruct r1 as [|o' sk]; cbn [shift_res].
    + cbn. split; [reflexivity | exact Ht].
    + destruct (truthy sk) eqn:Es.
      * cbn. split; [reflexivity|]. unfold agree in *. cbn. tauto.
      * destruct (readTag_step B (k + o) (k + o') sk s2 t2 (proj1 Hg) (proj2 Hg _ (reach_refl _ _)) Hc E2 Es)
          as (-> & Hn & Hb).
        replace (o' =? 0) with false by (symmetry; apply Z.eqb_neq; lia).
        replace (k + o' =? 0) with false by (symmetry; apply Z.eqb_neq; lia).
        apply IH; [lia | lia | apply (good_next B (k + o)); assumption | lia | exact Ht].
Qed.

Lemma tag_loop_fuel (f1 f2 : nat) (B : list Z) (p : Z) (s : state) :
  good B p -> 0 <= s.(_count) -> (gfuel B p <= f1)%nat -> (gfuel B p <= f2)%nat ->
  tag_loop f1 B p s = tag_loop f2 B p s.
Proof.
  unfold gfuel. revert f2 p s. induction f1 as [|f1 IH]; intros f2 p s Hg Hc H1 H2; [lia|].
  destruct f2 as [|f2]; [lia|]. cbn [tag_loop]. unfold bind.
  pose proof (readTag_count B p s) as Hc'.
  destruct (_readTag B p s) as [r s'|e s'] eqn:E; [|reflexivity].
  destruct r as [|o sk]; [reflexivity|]. destruct (truthy sk) eqn:Es; [reflexivity|].
  destruct (readTag_step B p o sk s s' (proj1 Hg) (proj2 Hg _ (reach_refl _ _)) Hc E Es) as (-> & Hn & Hb).
  pose proof (proj1 Hg).
  replace (o =? 0) with false by (symmetry; apply Z.eqb_neq; lia).
  cbn in Hc'. apply IH; [apply (good_next B p); assumption | lia | lia | lia].
Qed.

(** ** Reading a prefix of the stream, then more of it *)

Lemma header_app (B c : list Z) (p : Z) (h : list Z * Z * Z) :
  0 <= p -> header B p = Some h -> header (B ++ c) p = Some h.
Proof.
  unfold header. intros Hp. destruct (_readEBMLId B p) as [[id o1]|] eqn:E1; [|discriminate].
  rewrite (readEBMLId_app B c p id o1 Hp E1).
  destruct (_readTagDataSize B o1) as [[o2 dl]|] eqn:E2; [|discriminate].
  rewrite (readTagDataSize_app B c o1 o2 dl E2). auto.
Qed.

Lemma tag_next_app (B c : list Z) (p q : Z) :
  0 <= p -> tag_next B p = Some q -> tag_next (B ++ c) p = Some q.
Proof.
  unfold tag_next. intros Hp. destruct (header B p) as [h|] eqn:Eh; [|discriminate].
  rewrite (header_app B c p h Hp Eh). auto.
Qed.

Lemma leaf_ok_app (B c : list Z) (p : Z) : 0 <= p -> leaf_ok (B ++ c) p -> leaf_ok B p.
Proof. intros Hp H id o2 dl Eh. exact (H id o2 dl (header_app B c p _ Hp Eh)). Qed.

Lemma good_app (B c : list Z) (r : Z) : good (B ++ c) r -> good B r.
Proof.
  intros [Hr Hg]. split; [exact Hr|].
  assert (forall q, reach B r q -> 0 <= q /\ reach (B ++ c) r q) as Hq.
  { intros q H. induction H as [|q q' H [Hq IH] Hn]; [split; [exact Hr | constructor]|].
    pose proof (tag_next_app B c q q' Hq Hn) as Hn'.
    pose proof (tag_next_ge (B ++ c) q q' (Hg q IH) Hn').
    split; [lia | apply (reach_step _ _ q q'); assumption]. }
  intros q H. destruct (Hq q H) as [H0 H1]. exact (leaf_ok_app B c q H0 (Hg q H1)).
Qed.

Lemma readTag_split (B : list Z) (p o1 : Z) (id : list Z) (s : state) :
  _readEBMLId B p = Some (id, o1) ->
  _readTag B p s =
  (if s.(_ebmlFound) then after_gate B o1 (hex id) s
   else if String.eqb (hex id) "1a45dfa3" then after_gate B o1 (hex id) (set_ebmlFound true s)
   else Throw MissingEBML s).
Proof.
  intros E. unfold _readTag. rewrite E. unfold bind, get, ret, modify, throw.
  destruct (_ebmlFound s); [|destruct (String.eqb _ _)]; reflexivity.
Qed.

Lemma after_gate_prefix (B c : list Z) (o1 : Z) (id : string) (s : state) :
  0 <= o1 ->
  (forall o2 dl, _readTagDataSize B o1 = Some (o2, dl) -> TAGS id <> Some true -> 0 <= dl) ->
  match after_gate B o1 id s with
  | Ret TOO_SHORT s1 => s1 = s
  | Ret (Res o None) s1 => after_gate (B ++ c) o1 id s = Ret (Res o None) s1
  | Ret (Res o (Some t)) s1 =>
      after_gate (B ++ c) o1 id s =
      Ret (if blen (B ++ c) >? t - s.(_count) then Res (t - s.(_count)) None else Res o (Some t)) s1
  | Throw e s1 => after_gate (B ++ c) o1 id s = Throw e s1
  end.
Proof.
  intros Ho1 Hd. unfold after_gate at 1.
  destruct (_readTagDataSize B o1) as [[o2 dl]|] eqn:E2; [|reflexivity].
  pose proof (readTagDataSize_bounds _ _ _ _ E2). specialize (Hd o2 dl eq_refl).
  unfold after_gate. rewrite (readTagDataSize_app B c o1 o2 dl E2).
  pose proof (blen_nonneg c). rewrite blen_app.
  destruct (TAGS id) as [[|]|] eqn:Et.
  - reflexivity.
  - specialize (Hd ltac:(discriminate)).
    destruct (Z.gtb_spec (o2 + dl) (blen B)); [reflexivity|].
    destruct (Z.gtb_spec (o2 + dl) (blen B + blen c)); [lia|].
    rewrite <- blen_app, slice_app by lia.
    unfold bind, get, ret, modify, throw; cbn; repeat (dmatch_in; cbn); reflexivity.
  - specialize (Hd ltac:(discriminate)).
    destruct (Z.gtb_spec (blen B) (o2 + dl)).
    + destruct (Z.gtb_spec (blen B + blen c) (o2 + dl)); [reflexivity | lia].
    + unfold bind, get, ret. replace (_count s + o2 + dl - _count s) with (o2 + dl) by lia.
      destruct (blen B + blen c >? o2 + dl); reflexivity.
Qed.

(** [_readTag] on a prefix of the buffer, then on the whole buffer: a
    [TOO_SHORT] may have passed the EBML gate (which the whole buffer passes
    again), a skip becomes a move past the tag once the whole buffer holds
    it, and everything else is the same. *)
Lemma readTag_prefix (B c : list Z) (p : Z) (s : state) :
  0 <= p -> leaf_ok B p ->
  match _readTag B p s with
  | Ret TOO_SHORT s1 => _readTag (B ++ c) p s1 = _readTag (B ++ c) p s
  | Ret (Res o None) s1 => _readTag (B ++ c) p s = Ret (Res o None) s1
  | Ret (Res o (Some t)) s1 =>
      _readTag (B ++ c) p s =
      Ret (if blen (B ++ c) >? t - s.(_count) then Res (t - s.(_count)) None else Res o (Some t)) s1
  | Throw e s1 => _readTag (B ++ c) p s = Throw e s1
  end.
Proof.
  intros Hp Hl. destruct (_readEBMLId B p) as [[id o1]|] eqn:E1.
  2: { assert (H : _readTag B p s = Ret TOO_SHORT s) by (unfold _readTag; rewrite E1; reflexivity).
       rewrite H. reflexivity. }
  pose proof (readEBMLId_bounds _ _ _ _ E1).
  pose proof (readEBMLId_app B c p id o1 Hp E1) as E1'.
  assert (Hd : forall o2 dl, _readTagDataSize B o1 = Some (o2, dl) -> TAGS (hex id) <> Some true -> 0 <= dl).
  { intros o2 dl E2. apply (Hl id o2 dl). unfold header. rewrite E1, E2. reflexivity. }
  rewrite (readTag_split B p o1 id s E1), (readTag_split (B ++ c) p o1 id s E1').
  destruct (_ebmlFound s) eqn:Ef; [|destruct (String.eqb (hex id) "1a45dfa3") eqn:Eh].
  - pose proof (after_gate_prefix B c o1 (hex id) s ltac:(lia) Hd) as A.
    destruct (after_gate B o1 (hex id) s) as [[|o [t|]] s1|e s1]; try exact A.
    subst s1. rewrite (readTag_split (B ++ c) p o1 id s E1'), Ef. reflexivity.
  - pose proof (after_gate_prefix B c o1 (hex id) (set_ebmlFound true s) ltac:(lia) Hd) as A.
    destruct (after_gate B o1 (hex id) (set_ebmlFound true s)) as [[|o [t|]] s1|e s1]; try exact A.
    subst s1. rewrite (readTag_split (B ++ c) p o1 id _ E1'). reflexivity.
  - reflexivity.
Qed.

Lemma set_skipUntil_None (s : state) (x : option Z) :
  s.(_skipUntil) = None -> set_skipUntil None (set_skipUntil x s) = s.
Proof. destruct s; cbn. intros ->. reflexivity. Qed.

Lemma gfuel_step (B : list Z) (p o : Z) :
  0 <= p -> p + 2 <= o <= blen B -> (gfuel B o < gfuel B p)%nat.
Proof. unfold gfuel. lia. Qed.

Lemma GL_unfold (B : list Z) (p : Z) (s : state) :
  GL B p s =
  bind (_readTag B p)
    (fun result => match result with
     | TOO_SHORT => ret p
     | Res o sk =>
         if truthy sk then (_ <- modify (set_skipUntil sk) ;; ret p)
         else if o =? 0 then ret p
         else tag_loop (Z.to_nat (blen B - p)) B o
     end) s.
Proof. reflexivity. Qed.

Lemma GL_fuel (f : nat) (B : list Z) (p : Z) (s : state) :
  good B p -> 0 <= s.(_count) -> (gfuel B p <= f)%nat -> tag_loop f B p s = GL B p s.
Proof. intros. unfold GL. apply tag_loop_fuel; auto. Qed.

(** The loop on a prefix of the buffer, then on the whole buffer: the
    whole buffer's loop goes on from where the prefix's loop stopped, or
    from the end of the skipped tag once the whole buffer holds it. *)
Lemma tag_loop_prefix (f : nat) (B c : list Z) (r : Z) (s : state) :
  good (B ++ c) r -> s.(_skipUntil) = None -> 0 <= s.(_count) -> (gfuel B r <= f)%nat ->
  match tag_loop f B r s with
  | Ret q s1 =>
      match s1.(_skipUntil) with
      | None => GL (B ++ c) r s = GL (B ++ c) q s1
      | Some t =>
          GL (B ++ c) r s =
          if blen (B ++ c) >? t - s.(_count)
          then GL (B ++ c) (t - s.(_count)) (set_skipUntil None s1)
          else Ret q s1
      end
  | Throw e s1 => GL (B ++ c) r s = Throw e s1
  end.
Proof.
  revert r s. induction f as [|f IH]; intros r s Hg Hs Hc Hf; [unfold gfuel in Hf; lia|].
  pose proof (good_app B c r Hg) as HgB. pose proof (proj1 Hg) as Hr.
  pose proof (readTag_prefix B c r s Hr (proj2 HgB _ (reach_refl _ _))) as P.
  pose proof (readTag_count B r s) as Hc1. pose proof (readTag_skipUntil B r s) as Hs1.
  cbn [tag_loop]. unfold bind at 1. rewrite (GL_unfold (B ++ c) r s).
  destruct (_readTag B r s) as [res s1|e s1] eqn:E; cbn [final] in Hc1, Hs1.
  2: { unfold bind. rewrite P. reflexivity. }
  destruct res as [|o sk].
  - cbn [ret]. rewrite Hs1, Hs. rewrite (GL_unfold (B ++ c) r s1). unfold bind. rewrite P. reflexivity.
  - pose proof (readTag_res B r s s1 _ (proj2 HgB _ (reach_refl _ _)) E) as R.
    destruct (truthy sk) eqn:Es.
    + destruct sk as [t|]; [|discriminate]. destruct R as (Hn & Hb & Ho & _).
      unfold bind. rewrite P. cbn [set_skipUntil _skipUntil modify ret].
      pose proof (blen_nonneg c). rewrite blen_app in *.
      destruct (Z.gtb_spec (blen B + blen c) (t - _count s)).
      * cbn [truthy]. replace (t - _count s =? 0) with false by (symmetry; apply Z.eqb_neq; lia).
        rewrite set_skipUntil_None by congruence.
        rewrite <- blen_app. apply GL_fuel.
        -- apply (good_next (B ++ c) r); [exact Hg | apply tag_next_app; assumption].
        -- lia.
        -- unfold gfuel. rewrite blen_app. lia.
      * rewrite Es. reflexivity.
    + destruct (readTag_step B r o sk s s1 Hr (proj2 HgB _ (reach_refl _ _)) Hc E Es)
        as (-> & Hn & Hb).
      replace (o =? 0) with false by (symmetry; apply Z.eqb_neq; lia).
      assert (Hg' : good (B ++ c) o)
        by (apply (good_next (B ++ c) r); [exact Hg | apply tag_next_app; assumption]).
      assert (Hstep : bind (_readTag (B ++ c) r)
                        (fun result => match result with
                         | TOO_SHORT => ret r
                         | Res o sk =>
                             if truthy sk then (_ <- modify (set_skipUntil sk) ;; ret r)
                             else if o =? 0 then ret r
                             else tag_loop (Z.to_nat (blen (B ++ c) - r)) (B ++ c) o
                         end) s = GL (B ++ c) o s1).
      { unfold bind. rewrite P. cbn [truthy].
        replace (o =? 0) with false by (symmetry; apply Z.eqb_neq; lia).
        apply GL_fuel; [exact Hg' | lia | unfold gfuel; rewrite blen_app in *; pose proof (blen_nonneg c); lia]. }
      rewrite Hstep, <- Hc1.
      apply IH; [exact Hg' | congruence | lia | pose proof (gfuel_step B r o Hr Hb); lia].
Qed.

Lemma reach_trans (B : list Z) (p q r : Z) : reach B p q -> reach B q r -> reach B p r.
Proof.
  intros H1 H2. induction H2 as [|r r' H2 IH Hn]; [exact H1|].
  apply (reach_step B p r r'); assumption.
Qed.

Lemma good_reach (B : list Z) (p q : Z) : good B p -> reach B p q -> good B q.
Proof.
  intros Hg H. induction H as [|q q' H IH Hn]; [exact Hg|]. apply (good_next B q); assumption.
Qed.

Lemma reach_ge (B : list Z) (p q : Z) : good B p -> reach B p q -> p <= q.
Proof.
  intros Hg H. induction H as [|q q' H IH Hn]; [lia|].
  pose proof (tag_next_ge B q q' (proj2 Hg q H) Hn). lia.
Qed.

Lemma reach_app (B d : list Z) (p q : Z) : good B p -> reach B p q -> reach (B ++ d) p q.
Proof.
  intros Hg H. induction H as [|q q' H IH Hn]; [constructor|].
  apply (reach_step _ p q q'); [exact IH|]. apply tag_next_app; [|exact Hn].
  pose proof (reach_ge B p q Hg H). pose proof (proj1 Hg). lia.
Qed.

(** Where the loop stops: a tag reached from where it started, inside the
    buffer; if it set a skip, the skipped tag ends at or past the end of the
    buffer. Only [_skipUntil] of the frame may change. *)
Lemma tag_loop_post (f : nat) (B : list Z) (r : Z) (s : state) (q : Z) (s1 : state) :
  good B r -> 0 <= s.(_count) -> s.(_skipUntil) = None -> r <= blen B ->
  tag_loop f B r s = Ret q s1 ->
  reach B r q /\ q <= blen B /\
  (s1.(_remainder), s1.(_length), s1.(_count)) = (s.(_remainder), s.(_length), s.(_count)) /\
  match s1.(_skipUntil) with
  | None => True
  | Some t => tag_next B q = Some (t - s.(_count)) /\ blen B <= t - s.(_count)
  end.
Proof.
  revert r s. induction f as [|f IH]; intros r s Hg Hc Hs Hr H; [discriminate|].
  cbn [tag_loop] in H. unfold bind in H.
  pose proof (readTag_frame B r s) as Fr.
  destruct (_readTag B r s) as [res s'|e s'] eqn:E; [|discriminate].
  cbn [final] in Fr. unfold frame in Fr. injection Fr as F1 F2 F3 F4.
  destruct res as [|o sk].
  - cbn in H. injection H as <- <-. rewrite F1, F2, F3, F4, Hs.
    repeat split; [constructor | exact Hr].
  - pose proof (readTag_res B r s s' _ (proj2 Hg _ (reach_refl _ _)) E) as R.
    destruct (truthy sk) eqn:Es.
    + cbn in H. injection H as <- <-. destruct sk as [t|]; [|discriminate].
      destruct R as (Hn & Hb & _). cbn. rewrite F1, F2, F3.
      repeat split; [constructor | exact Hr | exact Hn | exact Hb].
    + destruct (readTag_step B r o sk s s' (proj1 Hg) (proj2 Hg _ (reach_refl _ _)) Hc E Es)
        as (-> & Hn & Hb).
      replace (o =? 0) with false in H by (symmetry; apply Z.eqb_neq; pose proof (proj1 Hg); lia).
      destruct (IH o s' (good_next B r o Hg Hn) ltac:(lia) ltac:(congruence) ltac:(lia) H)
        as (Hq & Hqb & Hf & Hsk).
      rewrite F1, F2, F3 in Hf. rewrite F3 in Hsk.
      split; [apply (reach_first B r o q Hn Hq)|]. repeat split; assumption.
Qed.

Lemma tag_loop_frame (f : nat) (B : list Z) (r : Z) (s : state) :
  let s1 := final (tag_loop f B r s) in
  (s1.(_remainder), s1.(_length), s1.(_count)) = (s.(_remainder), s.(_length), s.(_count)).
Proof.
  apply (tag_loop_pres (fun x => (x.(_remainder), x.(_length), x.(_count)) =
                                 (s.(_remainder), s.(_length), s.(_count)))); [..|reflexivity];
    intros;
    match goal with H : (?x.(_remainder), _, _) = _ |- _ =>
      rewrite <- H; destruct x as [? ? ? ? tr ? ? ?]; unfold discover; cbn;
      try destruct tr; cbn; try (destruct (is_audio_complete _)); reflexivity end.
Qed.

(** ** The demuxer after a prefix of the stream, against one loop over it *)

Lemma agree_fl (d : Z) (s1 s2 : state) : agree d s1 s2 -> fl s1 = fl s2.
Proof. unfold agree, fl. intros (_ & -> & -> & -> & -> & _). reflexivity. Qed.

Lemma working_remv (c : list Z) (s : state) : working c s = remv s ++ c.
Proof. unfold working, remv. destruct (_remainder s); reflexivity. Qed.

Lemma dropZ_app (k : Z) (P c : list Z) : 0 <= k <= blen P -> dropZ k P ++ c = dropZ k (P ++ c).
Proof.
  unfold dropZ, blen. intros Hk. rewrite skipn_app.
  replace (Z.to_nat k - List.length P)%nat with 0%nat by lia. reflexivity.
Qed.

Lemma dropZ_dropZ (a b : Z) (B : list Z) : 0 <= a -> 0 <= b -> dropZ b (dropZ a B) = dropZ (a + b) B.
Proof.
  unfold dropZ. intros. rewrite skipn_skipn. f_equal. lia.
Qed.

Lemma slice_from_drop (W : list Z) (q : Z) : 0 <= q -> slice_from W q = dropZ q W.
Proof.
  intros Hq. unfold slice_from, slice, rel_index, dropZ.
  replace (q <? 0) with false by (symmetry; apply Z.ltb_ge; lia).
  pose proof (blen_nonneg W).
  replace (blen W <? 0) with false by (symmetry; apply Z.ltb_ge; lia).
  rewrite Z.min_id. rewrite firstn_all2 by (rewrite length_skipn; unfold blen in *; lia).
  destruct (Z_le_gt_dec q (blen W)); [rewrite Z.min_l by lia; reflexivity|].
  rewrite Z.min_r by lia. unfold blen in *. rewrite !skipn_all2 by lia. reflexivity.
Qed.

Lemma dropZ_all (B : list Z) : dropZ (blen B) B = [].
Proof. unfold dropZ, blen. rewrite Nat2Z.id. apply skipn_all. Qed.

Lemma run_snoc (cs : list (list Z)) (c : list Z) (s : state) :
  run (cs ++ [c]) s =
  match run cs s with Ret _ s' => _transform c s' | Throw e s' => Throw e s' end.
Proof.
  revert s. induction cs as [|a cs IH]; intros s.
  - cbn [app run]. unfold bind, ret. destruct (_transform c s) as [[] ?|]; reflexivity.
  - cbn [app run]. unfold bind. destruct (_transform a s); [|reflexivity].
    specialize (IH s0). unfold bind in IH. exact IH.
Qed.

Lemma good_in (S B rest : list Z) (q : Z) :
  S = B ++ rest -> good S 0 -> reach S 0 q -> good B q.
Proof. intros -> Hg Hq. apply (good_app B rest). apply (good_reach _ 0); assumption. Qed.

(** One pass of the loop of [_transform] over the working buffer, which is
    the stream from [k] on, started at [o], then lines 50-51. *)
Lemma resume_step (S P c rest : list Z) (k o : Z) (s1 g : state) :
  S = P ++ c ++ rest -> good S 0 -> reach S 0 (k + o) ->
  0 <= k <= blen P -> 0 <= o -> k + o <= blen (P ++ c) ->
  agree k s1 g -> g.(_skipUntil) = None -> g.(_count) = 0 -> s1.(_length) = blen (P ++ c) ->
  Inv S (P ++ c)
    (bind (tag_loop (loop_fuel (dropZ k (P ++ c))) (dropZ k (P ++ c)) o)
          (finish (dropZ k (P ++ c))) s1)
    (GL (P ++ c) (k + o) g).
Proof.
  intros HS Hg0 Hr Hk Ho Hb Hag Hs Hc Hl.
  assert (HS' : S = (P ++ c) ++ rest) by (rewrite <- app_assoc; exact HS).
  pose proof (good_in S (P ++ c) rest (k + o) HS' Hg0 Hr) as Hg.
  pose proof (blen_nonneg c). pose proof (blen_app P c).
  set (B := P ++ c) in *. set (W := dropZ k B).
  pose proof (tag_loop_drop (loop_fuel W) k o B s1 g ltac:(lia) Ho Hg ltac:(lia) Hag) as R.
  rewrite (GL_fuel (loop_fuel W) B (k + o) g Hg ltac:(lia)) in R
    by (unfold gfuel, loop_fuel, W; rewrite blen_drop by lia; lia).
  pose proof (tag_loop_frame (loop_fuel W) W o s1) as Ft.
  fold W in R. unfold bind.
  destruct (tag_loop (loop_fuel W) W o s1) as [q1 t1|e t1],
           (GL B (k + o) g) as [q' g'|e' g'] eqn:EG; cbn [rel_out final] in R, Ft; try contradiction.
  - destruct R as [-> Ha]. injection Ft as Ft1 Ft2 Ft3.
    unfold GL in EG.
    destruct (tag_loop_post _ B (k + o) g (k + q1) g' Hg ltac:(lia) Hs Hb EG)
      as (Hq & Hqb & Fg & Hsk). injection Fg as _ _ Fg3.
    pose proof (reach_ge B (k + o) (k + q1) Hg Hq).
    pose proof Ha as Ha'. unfold agree in Ha'. destruct Ha' as (Hs' & _ & _ & _ & _ & Hct).
    cbn [finish modify Inv]. unfold set_remainder, set_count. cbn.
    assert (Hreach : reach S 0 (k + q1)).
    { apply (reach_trans S 0 (k + o)); [exact Hr|]. rewrite HS'. apply reach_app; assumption. }
    split; [exact (agree_fl k t1 g' Ha)|].
    split; [congruence|]. split; [congruence|]. split; [lia|].
    split.
    { unfold remv. cbn. rewrite slice_from_drop by lia. unfold W. rewrite dropZ_dropZ by lia.
      f_equal. lia. }
    rewrite Hs'. rewrite Hc in Hsk.
    destruct (_skipUntil g') as [t'|].
    + destruct Hsk as [Hn Hbt]. rewrite Z.sub_0_r in Hn, Hbt.
      pose proof (good_reach S 0 (k + q1) Hg0 Hreach) as Hgq.
      assert (Hn' : tag_next S (k + q1) = Some t')
        by (rewrite HS'; apply tag_next_app; [lia | exact Hn]).
      pose proof (tag_next_ge S (k + q1) t' (proj2 Hgq _ (reach_refl _ _)) Hn').
      repeat split; try lia. apply (reach_step S 0 (k + q1) t' Hreach Hn').
    + repeat split; [lia | exact Hreach].
  - destruct R as [-> Ha]. cbn [Inv]. split; [reflexivity | exact (agree_fl k t1 g' Ha)].
Qed.

Lemma Inv_snoc (S P c rest : list Z) (cs : list (list Z)) :
  S = P ++ c ++ rest -> good S 0 ->
  Inv S P (run cs init) (GL P 0 init) ->
  Inv S (P ++ c) (run (cs ++ [c]) init) (GL (P ++ c) 0 init).
Proof.
  intros HS Hg0 H. rewrite run_snoc.
  assert (Hgc : good (P ++ c) 0)
    by (apply (good_app (P ++ c) rest); rewrite <- app_assoc, <- HS; exact Hg0).
  pose proof (tag_loop_prefix (gfuel P 0) P c 0 init Hgc eq_refl ltac:(cbn; lia) (le_n _)) as TP.
  change (tag_loop (gfuel P 0) P 0 init) with (GL P 0 init) in TP.
  cbn [_count init] in TP.
  pose proof (blen_nonneg c). pose proof (blen_app P c).
  destruct (run cs init) as [[] s|e s], (GL P 0 init) as [q g|e' g];
    cbn [Inv] in H; try contradiction.
  - destruct H as (Hfl & Hc0 & Hl & Hk & Hrem & Hsk).
    unfold fl in Hfl. injection Hfl as Ht Hi He Hp.
    rewrite transform_eq. cbv zeta.
    rewrite working_remv, Hrem, dropZ_app by lia.
    destruct (_skipUntil g) as [t|] eqn:Eg.
    + destruct Hsk as (Hs & Hbt & Hrt & Ht0). rewrite Hs.
      replace (negb (t =? 0)) with true by (symmetry; apply negb_true_iff, Z.eqb_neq; lia).
      rewrite Hl, Z.sub_0_r in *. rewrite <- blen_app.
      destruct (Z.gtb_spec (blen (P ++ c)) t).
      * rewrite TP.
        pose proof (resume_step S P c rest (_count s) (t - _count s)
                      (set_skipUntil None (entered c s)) (set_skipUntil None g)) as RS.
        replace (_count s + (t - _count s)) with t in RS by lia.
        apply RS; try solve [assumption | lia | reflexivity | cbn; lia
                        | unfold agree; cbn; repeat split; (congruence || lia)].
      * rewrite TP. cbn [Inv]. unfold fl, remv. cbn.
        rewrite Hs, Eg, Ht, Hi, He, Hp. rewrite blen_drop by lia.
        replace (_count s + (blen (P ++ c) - _count s)) with (blen (P ++ c)) by lia.
        rewrite dropZ_all. repeat split; try lia; assumption.
    + destruct Hsk as (Hs & Hq & Hrq). rewrite Hs. rewrite TP.
      pose proof (resume_step S P c rest (_count s) 0 (entered c s) g) as RS.
      subst q. rewrite Z.add_0_r in RS.
      apply RS; solve [assumption | lia | reflexivity | cbn; lia
                      | unfold agree; cbn; repeat split; (congruence || lia)].
  - destruct H as [-> Hfl]. rewrite TP. cbn [Inv]. split; [reflexivity | exact Hfl].
Qed.

Lemma Inv_run (S rest : list Z) (cs : list (list Z)) :
  S = List.concat cs ++ rest -> good S 0 ->
  Inv S (List.concat cs) (run cs init) (GL (List.concat cs) 0 init).
Proof.
  revert rest. induction cs as [|c cs IH] using rev_ind; intros rest HS Hg.
  - replace (GL (List.concat []) 0 init) with (Ret 0 init) by (vm_compute; reflexivity).
    cbn. repeat split; try lia; constructor.
  - rewrite List.concat_app. cbn [List.concat]. rewrite app_nil_r.
    rewrite List.concat_app in HS. cbn [List.concat] in HS. rewrite app_nil_r, <- app_assoc in HS.
    apply (Inv_snoc S (List.concat cs) c rest cs HS Hg).
    apply (IH (c ++ rest) HS Hg).
Qed.

Lemma reach_inv (B : list Z) (p q : Z) :
  reach B p q -> q = p \/ exists p', tag_next B p = Some p' /\ reach B p' q.
Proof.
  intros H. induction H as [|q q' H IH Hn]; [left; reflexivity|]. right.
  destruct IH as [->|(p' & Hp' & Hr)].
  - exists q'. split; [exact Hn | constructor].
  - exists p'. split; [exact Hp'|]. apply (reach_step B p' q q'); assumption.
Qed.

Lemma wf_walk_sound (f : nat) (B : list Z) (p : Z) :
  wf_walk f B p = true -> forall q, reach B p q -> leaf_ok B q.
Proof.
  revert p. induction f as [|f IH]; intros p H q Hr; [discriminate|].
  cbn [wf_walk] in H. apply andb_true_iff in H as [Hl Hw].
  destruct (reach_inv B p q Hr) as [->|(p' & Hp' & Hr')].
  - unfold leaf_okb in Hl. intros id o2 dl Eh Hc. rewrite Eh in Hl.
    destruct (TAGS (hex id)) as [[|]|]; [congruence | apply Z.leb_le; exact Hl | apply Z.leb_le; exact Hl].
  - rewrite Hp' in Hw. apply (IH p' Hw q Hr').
Qed.

Lemma wf_walk_well_formed (f : nat) (S : list Z) : wf_walk f S 0 = true -> well_formed S.
Proof. intros H. split; [lia|]. apply (wf_walk_sound f S 0 H). Qed.

Lemma fl_pushed (s1 s2 : state) : fl s1 = fl s2 -> pushed s1 = pushed s2.
Proof. unfold fl. intros H. injection H. auto. Qed.

(** ** Chunking *)

(** C1: for a well-formed stream [S] (every tag the walker reaches that
    is not a container has a non-negative decoded length), feeding [S] to
    the demuxer as any sequence of chunks gives the same outcome as feeding
    it as one chunk: both end normally having emitted the same units in the
    same order, or both fail with the same error having emitted the same
    units before it. Well-formedness excludes declared lengths that
    [expandVint] wraps to negative values (2^31 and more, see C2). *)
Theorem chunking_invariant (S : list Z) (chunks : list (list Z)) :
  well_formed S -> List.concat chunks = S ->
  match run chunks init, run [S] init with
  | Ret _ s1, Ret _ s2 => pushed s1 = pushed s2
  | Throw e1 s1, Throw e2 s2 => e1 = e2 /\ pushed s1 = pushed s2
  | _, _ => False
  end.
Proof.
  intros Hwf Hc.
  pose proof (Inv_run S [] chunks ltac:(rewrite app_nil_r; auto) Hwf) as H1.
  pose proof (Inv_run S [] [S] ltac:(cbn; rewrite !app_nil_r; auto) Hwf) as H2.
  rewrite Hc in H1. cbn [List.concat] in H2. rewrite app_nil_r in H2.
  destruct (GL S 0 init) as [q g|e g];
    destruct (run chunks init) as [u1 s1|e1 s1]; destruct (run [S] init) as [u2 s2|e2 s2];
    cbn [Inv] in H1, H2; try contradiction.
  - destruct H1 as (F1 & _), H2 as (F2 & _). apply fl_pushed. congruence.
  - destruct H1 as [<- F1], H2 as [<- F2]. split; [reflexivity|]. apply fl_pushed. congruence.
Qed.

Lemma chunking_invariant_witness :
  well_formed sample_stream /\
  List.concat (map (fun b => [b]) sample_stream) = sample_stream /\
  match run (map (fun b => [b]) sample_stream) init, run [sample_stream] init with
  | Ret _ s1, Ret _ s2 => pushed s1 = pushed s2
  | Throw e1 s1, Throw e2 s2 => e1 = e2 /\ pushed s1 = pushed s2
  | _, _ => False
  end.
Proof.
  assert (Hw : well_formed sample_stream)
    by (apply (wf_walk_well_formed 50); vm_compute; reflexivity).
  assert (Hc : List.concat (map (fun b => [b]) sample_stream) = sample_stream)
    by (vm_compute; reflexivity).
  split; [exact Hw|]. split; [exact Hc|].
  exact (chunking_invariant sample_stream (map (fun b => [b]) sample_stream) Hw Hc).
Defined.

(** ** Skipping unknown tags *)

Lemma header_parts (B : list Z) (p o2 dl : Z) (id : list Z) :
  header B p = Some (id, o2, dl) ->
  exists o1, _readEBMLId B p = Some (id, o1) /\ _readTagDataSize B o1 = Some (o2, dl).
Proof.
  unfold header. intros H.
  destruct (_readEBMLId B p) as [[id' o1]|] eqn:E1; [|discriminate].
  destruct (_readTagDataSize B o1) as [[o2' dl']|] eqn:E2; [|discriminate].
  injection H; intros; subst. exists o1. split; [reflexivity | exact E2].
Qed.

Lemma skip_wait (cs : list (list Z)) (P : list Z) (s : state) (t : Z) :
  consistent P s -> s.(_skipUntil) = Some t -> 0 < t ->
  blen (P ++ List.concat cs) <= t ->
  exists s', run cs s = Ret tt s' /\ fl s' = fl s /\ s'.(_skipUntil) = Some t /\
             consistent (P ++ List.concat cs) s'.
Proof.
  revert P s. induction cs as [|c cs IH]; intros P s Hc Hs Ht Hb.
  - exists s. cbn [List.concat]. rewrite app_nil_r. auto.
  - destruct Hc as (Hl & Hk & Hr).
    cbn [run List.concat] in *. unfold bind at 1. rewrite transform_eq. cbv zeta. rewrite Hs.
    replace (negb (t =? 0)) with true by (symmetry; apply negb_true_iff, Z.eqb_neq; lia).
    rewrite !blen_app in Hb. pose proof (blen_nonneg (List.concat cs)).
    rewrite Hl. destruct (Z.gtb_spec (blen P + blen c) t); [lia|].
    rewrite working_remv, Hr, dropZ_app by lia. pose proof (blen_nonneg c). rewrite blen_drop by (rewrite blen_app; lia).
    match goal with |- exists s', run cs ?x = _ /\ _ => set (s1 := x) end.
    assert (C1 : consistent (P ++ c) s1).
    { unfold consistent, remv, s1. cbn. rewrite blen_app.
      replace (_count s + (blen P + blen c - _count s)) with (blen (P ++ c)) by (rewrite blen_app; lia).
      rewrite dropZ_all, blen_app. repeat split; lia. }
    assert (Hb' : blen ((P ++ c) ++ List.concat cs) <= t) by (rewrite !blen_app; lia).
    destruct (IH (P ++ c) s1 C1 ltac:(cbn; exact Hs) Ht Hb') as (s' & E & F & S' & C).
    exists s'. rewrite app_assoc. split; [exact E|]. split; [|split; [exact S' | exact C]].
    rewrite F. reflexivity.
Qed.

Lemma skip_set (f : nat) (W : list Z) (o : Z) (s : state) (id : list Z) (o2 dl : Z) :
  0 <= o -> header W o = Some (id, o2, dl) -> TAGS (hex id) = None ->
  blen W <= o2 + dl -> s.(_ebmlFound) = true -> 0 <= dl -> 0 <= s.(_count) ->
  tag_loop (S f) W o s = Ret o (set_skipUntil (Some (s.(_count) + o2 + dl)) s).
Proof.
  intros Ho Hh Ht Hb He Hd Hc.
  pose proof (header_bounds _ _ _ _ _ Hh) as Hob.
  destruct (header_parts _ _ _ _ _ Hh) as (o1 & E1 & E2).
  cbn [tag_loop]. unfold bind at 1, _readTag. rewrite E1.
  unfold bind, get, ret. rewrite He. rewrite E2, Ht.
  destruct (Z.gtb_spec (blen W) (o2 + dl)); [lia|].
  unfold truthy, modify.
  replace (_count s + o2 + dl =? 0) with false by (symmetry; apply Z.eqb_neq; lia).
  reflexivity.
Qed.

Lemma skip_resume (c P : list Z) (s : state) (t : Z) :
  consistent P s -> s.(_skipUntil) = Some t -> 0 < t ->
  blen P <= t -> t < blen (P ++ c) ->
  let W := dropZ s.(_count) (P ++ c) in
  _transform c s =
    bind (tag_loop (loop_fuel W) W (t - s.(_count))) (finish W) (set_skipUntil None (entered c s)) /\
  0 <= t - s.(_count) /\ dropZ (t - s.(_count)) W = dropZ t (P ++ c).
Proof.
  intros (Hl & Hk & Hr) Hs Ht Hb Hlt W. rewrite blen_app in Hlt.
  split; [|split; [lia|]].
  - rewrite transform_eq. cbv zeta. rewrite Hs.
    replace (negb (t =? 0)) with true by (symmetry; apply negb_true_iff, Z.eqb_neq; lia).
    rewrite Hl. destruct (Z.gtb_spec (blen P + blen c) t); [|lia].
    unfold W. rewrite working_remv, Hr, dropZ_app by lia. reflexivity.
  - unfold W. rewrite dropZ_dropZ by lia. f_equal. lia.
Qed.

Lemma skip_set_consistent (P W : list Z) (o : Z) (s : state) (id : list Z) (o2 dl : Z) :
  W = dropZ s.(_count) P -> s.(_length) = blen P -> 0 <= s.(_count) <= blen P ->
  0 <= o -> header W o = Some (id, o2, dl) -> blen W <= o2 + dl ->
  blen P <= s.(_count) + o2 + dl /\
  consistent P (final (finish W o (set_skipUntil (Some (s.(_count) + o2 + dl)) s))).
Proof.
  intros HW Hl Hk Ho Hh Hb.
  pose proof (header_bounds _ _ _ _ _ Hh) as Hob.
  assert (HbW : blen W = blen P - _count s) by (subst W; apply blen_drop; lia).
  split; [lia|].
  unfold finish, modify, final, consistent, remv. cbn.
  rewrite slice_from_drop by lia. subst W. rewrite dropZ_dropZ by lia.
  repeat split; lia.
Qed.

(** C3: skipping an unknown tag whose body runs past the working buffer.
    (a) Setting: when the loop of [_transform] reads, at offset [o] of its
    working buffer [W] (the stream [P] so far from [_count] on), the header
    of a tag absent from [TAGS] whose body ends at or past the end of [W],
    it sets [_skipUntil] to the absolute end [_count + o2 + dl] of the body
    and stops at once (one [_readTag], the offset of the tag is returned);
    that target is at or past the end of the stream read so far, and after
    lines 50-52 the remainder is the stream from [_count] on.
    (b) Waiting: while [_skipUntil = Some t] with [t > 0] and the total
    length stays at most [t], every further chunk only adds to [_count]:
    nothing is parsed, thrown or pushed, the track fields are untouched and
    the one target stays as it is.
    (c) Resuming: the first chunk that takes the total length past [t]
    clears the target and runs the loop from offset [t - _count] of the
    working buffer, which is absolute stream offset [t].
    The state holds one optional target ([_skipUntil : option Z]): the loop
    only runs with it cleared (b, c) and stops as soon as it sets it (a).
    Bodies are assumed to have a non-negative decoded length (see C2). *)
Theorem skip_target_protocol :
  (forall (f : nat) (P W : list Z) (o : Z) (s : state) (id : list Z) (o2 dl : Z),
     W = dropZ s.(_count) P -> s.(_length) = blen P -> 0 <= s.(_count) <= blen P ->
     0 <= o -> header W o = Some (id, o2, dl) -> TAGS (hex id) = None ->
     blen W <= o2 + dl -> s.(_ebmlFound) = true -> 0 <= dl ->
     tag_loop (S f) W o s = Ret o (set_skipUntil (Some (s.(_count) + o2 + dl)) s) /\
     blen P <= s.(_count) + o2 + dl /\
     consistent P (final (finish W o (set_skipUntil (Some (s.(_count) + o2 + dl)) s)))) /\
  (forall (cs : list (list Z)) (P : list Z) (s : state) (t : Z),
     consistent P s -> s.(_skipUntil) = Some t -> 0 < t ->
     blen (P ++ List.concat cs) <= t ->
     exists s', run cs s = Ret tt s' /\ fl s' = fl s /\ s'.(_skipUntil) = Some t /\
                consistent (P ++ List.concat cs) s') /\
  (forall (c P : list Z) (s : state) (t : Z),
     consistent P s -> s.(_skipUntil) = Some t -> 0 < t ->
     blen P <= t -> t < blen (P ++ c) ->
     let W := dropZ s.(_count) (P ++ c) in
     _transform c s =
       bind (tag_loop (loop_fuel W) W (t - s.(_count))) (finish W)
            (set_skipUntil None (entered c s)) /\
     0 <= t - s.(_count) /\ dropZ (t - s.(_count)) W = dropZ t (P ++ c)).
Proof.
  split; [|split].
  - intros f P W o s id o2 dl HW Hl Hk Ho Hh Ht Hb He Hd.
    assert (Hc : 0 <= _count s) by lia.
    destruct (skip_set_consistent P W o s id o2 dl HW Hl Hk Ho Hh Hb) as [H1 H2].
    split; [exact (skip_set f W o s id o2 dl Ho Hh Ht Hb He Hd Hc)|].
    split; [exact H1 | exact H2].
  - intros cs P s t. apply skip_wait.
  - intros c P s t. apply skip_resume.
Qed.

Lemma skip_target_protocol_witness :
  (tag_loop 1 skip_chunk1 5 skip_s0 =
     Ret 5 (set_skipUntil (Some (skip_s0.(_count) + 7 + 10)) skip_s0) /\
   blen skip_chunk1 <= skip_s0.(_count) + 7 + 10 /\
   consistent skip_chunk1
     (final (finish skip_chunk1 5 (set_skipUntil (Some (skip_s0.(_count) + 7 + 10)) skip_s0)))) /\
  (exists s', run [skip_chunk2] skip_s1 = Ret tt s' /\ fl s' = fl skip_s1 /\
              s'.(_skipUntil) = Some 17 /\
              consistent (skip_chunk1 ++ List.concat [skip_chunk2]) s') /\
  (let W := dropZ skip_s2.(_count) ((skip_chunk1 ++ skip_chunk2) ++ skip_chunk3) in
   _transform skip_chunk3 skip_s2 =
     bind (tag_loop (loop_fuel W) W (17 - skip_s2.(_count))) (finish W)
          (set_skipUntil None (entered skip_chunk3 skip_s2)) /\
   0 <= 17 - skip_s2.(_count) /\
   dropZ (17 - skip_s2.(_count)) W = dropZ 17 ((skip_chunk1 ++ skip_chunk2) ++ skip_chunk3)).
Proof.
  destruct skip_target_protocol as (A & B & C).
  split; [|split].
  - apply (A 0%nat skip_chunk1 skip_chunk1 5 skip_s0 [0xec] 7 10);
      first [vm_compute; reflexivity | vm_compute; repeat split; congruence].
  - apply (B [skip_chunk2] skip_chunk1 skip_s1 17);
      first [vm_compute; reflexivity | unfold consistent; vm_compute; repeat split; congruence | vm_compute; congruence].
  - apply (C skip_chunk3 (skip_chunk1 ++ skip_chunk2) skip_s2 17);
      first [vm_compute; reflexivity | unfold consistent; vm_compute; repeat split; congruence | vm_compute; congruence].
Defined.

(** * Further properties of the demuxer *)

(** ** Reading one tag *)

Lemma slice_length (B : list Z) (a b : Z) :
  0 <= a <= b -> b <= blen B -> List.length (slice B a b) = Z.to_nat (b - a).
Proof.
  intros Hab Hb. unfold slice, rel_index.
  replace (a <? 0) with false by (symmetry; apply Z.ltb_ge; lia).
  replace (b <? 0) with false by (symmetry; apply Z.ltb_ge; lia).
  rewrite (Z.min_l a), (Z.min_l b) by lia.
  rewrite length_firstn, length_skipn. unfold blen in Hb. lia.
Qed.

Lemma slice_0_8 (d : list Z) : slice d 0 8 = firstn 8 d.
Proof.
  unfold slice, rel_index. cbn [Z.ltb Z.compare]. pose proof (blen_nonneg d).
  replace (8 <? 0) with false by reflexivity. rewrite (Z.min_l 0) by lia.
  cbn [skipn]. destruct (Z_le_gt_dec 8 (blen d)).
  - rewrite (Z.min_l 8) by lia. reflexivity.
  - rewrite (Z.min_r 8) by lia. unfold blen in *. rewrite Z.sub_0_r, Nat2Z.id.
    rewrite firstn_all, firstn_all2 by lia. reflexivity.
Qed.

Lemma readTag_header (B : list Z) (p : Z) (s : state) (id : list Z) (o2 dl : Z) :
  s.(_ebmlFound) = true -> header B p = Some (id, o2, dl) ->
  exists o1, _readTag B p s = after_gate B o1 (hex id) s /\ _readTagDataSize B o1 = Some (o2, dl).
Proof.
  intros He Hh. destruct (header_parts _ _ _ _ _ Hh) as (o1 & E1 & E2).
  exists o1. rewrite (readTag_split B p o1 id s E1), He. split; [reflexivity | exact E2].
Qed.

Lemma after_gate_too_short (B : list Z) (o1 : Z) (id : string) (s s' : state) :
  after_gate B o1 id s = Ret TOO_SHORT s' -> s' = s.
Proof.
  unfold after_gate, ret, bind, get, modify, throw.
  destruct (_readTagDataSize B o1) as [[o2 dl]|]; [|congruence].
  destruct (TAGS id) as [[|]|]; [congruence| |].
  - destruct (o2 + dl >? blen B); [congruence|].
    destruct (String.eqb id "63a2"); [destruct (buf_equals _ _); congruence|].
    destruct (String.eqb id "a3"); [|congruence].
    cbn. destruct (_track _); [|congruence]. destruct (block_matches _ _); congruence.
  - destruct (blen B >? o2 + dl); congruence.
Qed.

(** A tag that cannot be read yet ([TOO_SHORT]: its ID or size field is cut
    off, or a leaf's data is not all in the buffer) has no effect on the
    demuxer, apart from clearing the header gate when the ID read is the
    EBML ID: no track field is recorded, nothing is pushed, and the tag is
    read again from the same offset with more data. *)
Theorem readTag_too_short_no_effect (B : list Z) (p : Z) (s s' : state) :
  _readTag B p s = Ret TOO_SHORT s' -> s' = s \/ s' = set_ebmlFound true s.
Proof.
  destruct (_readEBMLId B p) as [[id o1]|] eqn:E1.
  - rewrite (readTag_split B p o1 id s E1).
    destruct (_ebmlFound s); [|destruct (String.eqb _ _)]; intros H.
    + left. exact (after_gate_too_short _ _ _ _ _ H).
    + right. exact (after_gate_too_short _ _ _ _ _ H).
    + discriminate.
  - unfold _readTag. rewrite E1. unfold ret. intros H. injection H as ->. left. reflexivity.
Qed.

Lemma readTag_past_end (B : list Z) (p : Z) (s : state) :
  blen B <= p -> _readTag B p s = Ret TOO_SHORT s.
Proof.
  intros Hp. unfold _readTag, _readEBMLId, vintLength.
  replace (at_ B p) with (@None Z).
  - cbn [undef0]. rewrite vint_scan_zero.
    replace (p + (8 + 1) >? blen B) with true by (symmetry; apply Z.gtb_lt; lia).
    reflexivity.
  - unfold at_. pose proof (blen_nonneg B).
    replace (p <? 0) with false by (symmetry; apply Z.ltb_ge; lia).
    symmetry. apply nth_error_None. unfold blen in *. lia.
Qed.

(** At or past the end of the buffer, [_readTag] returns [TOO_SHORT] and
    changes nothing ([buffer[index]] is [undefined], [vintLength] scans to
    9 bytes, which are not there). *)
Theorem readTag_at_end (B : list Z) (p : Z) (s : state) :
  blen B <= p -> _readTag B p s = Ret TOO_SHORT s.
Proof. exact (readTag_past_end B p s). Qed.

Lemma firstn_8_short (d : list Z) : (List.length d < 8)%nat -> buf_equals (firstn 8 d) OPUS_HEAD = false.
Proof.
  intros H. unfold buf_equals. destruct (list_eq_dec Z.eq_dec _ _) as [E|]; [|reflexivity].
  apply (f_equal (@List.length Z)) in E. rewrite length_firstn in E. change (List.length OPUS_HEAD) with 8%nat in E. lia.
Qed.

(** The codec check on a fully buffered ['63a2'] leaf: it passes exactly
    when the data has at least 8 bytes and its first 8 bytes are
    ['OpusHead'], whatever follows; shorter data is always rejected with
    the unsupported-codec error. *)
Theorem codec_check_exact (B : list Z) (p : Z) (s : state) (id : list Z) (o2 dl : Z) :
  s.(_ebmlFound) = true -> 0 <= p -> header B p = Some (id, o2, dl) -> hex id = "63a2"%string ->
  0 <= dl -> o2 + dl <= blen B ->
  let data := slice B o2 (o2 + dl) in
  _readTag B p s =
    if (8 <=? dl) && buf_equals (firstn 8 data) OPUS_HEAD
    then Ret (Res (o2 + dl) None) (discover "63a2" data s)
    else Throw NotOpus (discover "63a2" data s).
Proof.
  intros He Hp Hh Hid Hd Hb data.
  pose proof (header_bounds _ _ _ _ _ Hh) as Ho.
  destruct (readTag_header B p s id o2 dl He Hh) as (o1 & -> & E2).
  unfold after_gate. rewrite E2, Hid. cbn [TAGS assoc TAGS_table String.eqb Ascii.eqb Bool.eqb].
  rewrite (gtb_false _ _ Hb). fold data. unfold bind, modify. cbn [String.eqb Ascii.eqb Bool.eqb].
  rewrite slice_0_8. destruct (Z.leb_spec 8 dl); cbn [andb]; [destruct (buf_equals _ _); reflexivity|].
  rewrite firstn_8_short; [reflexivity|].
  unfold data. rewrite slice_length by lia. lia.
Qed.

Lemma slice_from_4_short (d : list Z) : (List.length d <= 4)%nat -> slice_from d 4 = [].
Proof.
  intros H. unfold slice_from, slice, rel_index. pose proof (blen_nonneg d).
  replace (4 <? 0) with false by reflexivity.
  replace (blen d <? 0) with false by (symmetry; apply Z.ltb_ge; lia).
  rewrite Z.min_id, (Z.min_r 4) by (unfold blen; lia). rewrite Z.sub_diag. reflexivity.
Qed.

(** A matching SimpleBlock ([a3]) of at most 4 data bytes is emitted as an
    empty unit ([data.slice(4)] is empty). With no data at all,
    [data[0] & 0xF] is [undefined & 15], which is 0: an empty block matches
    a track numbered 0. *)
Theorem short_block_empty_unit (B : list Z) (p : Z) (s : state) (id : list Z) (o2 dl : Z)
    (t : IncompleteTrack) :
  s.(_ebmlFound) = true -> 0 <= p -> header B p = Some (id, o2, dl) -> hex id = "a3"%string ->
  0 <= dl <= 4 -> o2 + dl <= blen B -> s.(_track) = Some t ->
  block_matches (slice B o2 (o2 + dl)) t = true ->
  _readTag B p s = Ret (Res (o2 + dl) None) (push_unit [] s).
Proof.
  intros He Hp Hh Hid Hd Hb Ht Hm.
  pose proof (header_bounds _ _ _ _ _ Hh) as Ho.
  destruct (readTag_header B p s id o2 dl He Hh) as (o1 & -> & E2).
  unfold after_gate. rewrite E2, Hid. cbn [TAGS assoc TAGS_table String.eqb Ascii.eqb Bool.eqb].
  rewrite (gtb_false _ _ Hb). unfold bind, modify, get, ret.
  cbn [String.eqb Ascii.eqb Bool.eqb].
  replace (discover "a3" (slice B o2 (o2 + dl)) s) with s
    by (unfold discover; rewrite Ht; reflexivity).
  rewrite Ht, Hm. f_equal. f_equal.
  apply slice_from_4_short. rewrite slice_length by lia. lia.
Qed.

(** ** The whole demuxer, over any chunks *)

(** Once a track is discovered it is kept for good: no later chunk replaces
    or clears it (line 124 guards the whole discovery). *)
Theorem track_kept (cs : list (list Z)) (s : state) (t : IncompleteTrack) :
  s.(_track) = Some t -> (final (run cs s)).(_track) = Some t.
Proof.
  apply (run_pres (fun x => x.(_track) = Some t)); cbn; auto.
  intros id data x H. unfold discover. rewrite H. exact H.
Qed.

(** The track the demuxer discovers is an audio track: its type is 2 and it
    has a number. *)
Theorem discovered_track_audio (cs : list (list Z)) (t : IncompleteTrack) :
  (final (run cs init)).(_track) = Some t -> t.(type) = Some 2 /\ t.(number) <> None.
Proof.
  intros H.
  assert (Ha : is_audio_complete t = true).
  { revert H. apply (run_pres (fun x => x.(_track) = Some t -> is_audio_complete t = true));
      cbn; auto; try discriminate.
    intros id data x IH. unfold discover. destruct (_track x) eqn:E; [rewrite E; exact IH|].
    cbv zeta. match goal with |- context [is_audio_complete ?it] =>
      destruct (is_audio_complete it) eqn:Ec end.
    - unfold set_track. cbn [_track]. intros Hs. injection Hs as <-. exact Ec.
    - unfold set_incompleteTrack. cbn [_track]. rewrite E. discriminate. }
  unfold is_audio_complete in Ha. apply andb_prop in Ha as [H1 H2].
  destruct t as [n ty]; cbn in *. destruct n; [|discriminate].
  destruct ty as [k|]; [|discriminate]. split; [|discriminate].
  destruct k as [|q|q]; try discriminate; repeat (destruct q as [q|q|]; try discriminate).
  reflexivity.
Qed.

(** Nothing is ever emitted before an audio track has been discovered:
    whenever a unit has been pushed, [_track] is set. *)
Theorem output_only_after_track (cs : list (list Z)) :
  (final (run cs init)).(pushed) <> [] -> (final (run cs init)).(_track) <> None.
Proof.
  apply (run_pres (fun x => x.(pushed) <> [] -> x.(_track) <> None)); cbn; auto.
  - intros id data x H Hp. rewrite discover_pushed in Hp. specialize (H Hp).
    unfold discover. destruct (_track x) eqn:E; [rewrite E; discriminate | contradiction].
  - intros x t data u _ Ht _ _. unfold push_unit. cbn [_track]. rewrite Ht. discriminate.
Qed.

(** ** Variable-length integers that fit in 31 bits *)

Lemma vint_scan_log2 (b : Z) : 1 <= b <= 255 -> vint_scan b 0 8 = 7 - Z.log2 b.
Proof.
  intros Hb.
  assert (H : forallb (fun k => vint_scan k 0 8 =? 7 - Z.log2 k) (map Z.of_nat (seq 1 255)) = true)
    by (vm_compute; reflexivity).
  rewrite forallb_forall in H. apply Z.eqb_eq, H.
  apply in_map_iff. exists (Z.to_nat b). split; [lia|]. apply in_seq. lia.
Qed.

Lemma vintLength_log2 (B : list Z) (i b : Z) :
  at_ B i = Some b -> 1 <= b <= 255 ->
  vintLength B i = (if i + (8 - Z.log2 b) >? blen B then None else Some (8 - Z.log2 b)).
Proof.
  intros Ha Hb. unfold vintLength. rewrite Ha. cbn [undef0]. rewrite vint_scan_log2 by exact Hb.
  replace (7 - Z.log2 b + 1) with (8 - Z.log2 b) by lia. reflexivity.
Qed.

(** [vintLength] counts up to and including the first set bit of the marker
    byte, from the top: a byte with its highest set bit at position [k]
    gives a length of [8 - k], or [TOO_SHORT] when that many bytes are not
    all in the buffer. *)
Theorem vintLength_first_set_bit (B : list Z) (i b : Z) :
  at_ B i = Some b -> 1 <= b <= 255 ->
  vintLength B i = (if i + (8 - Z.log2 b) >? blen B then None else Some (8 - Z.log2 b)).
Proof. exact (vintLength_log2 B i b). Qed.

Lemma lor_pow2_small (k x : Z) : 0 <= k -> 0 <= x < 2 ^ k -> Z.lor (2 ^ k) x = 2 ^ k + x.
Proof.
  intros Hk Hx.
  assert (H0 : Z.land (2 ^ k) x = 0).
  { apply Z.bits_inj'. intros j Hj. rewrite Z.land_spec, Z.bits_0, Z.pow2_bits_eqb by lia.
    destruct (Z.eqb_spec k j); [subst j|reflexivity]. cbn [andb].
    destruct (Z.eq_dec x 0) as [->|Hn]; [apply Z.bits_0|].
    apply Z.bits_above_log2; [lia|]. apply Z.log2_lt_pow2; lia. }
  rewrite <- Z.lxor_lor by exact H0. symmetry. apply Z.add_nocarry_lxor. exact H0.
Qed.

Lemma nth_be_bytes (v : Z) (k j : nat) :
  (j < k)%nat ->
  nth_error (be_bytes v k) j = Some (Z.land (Z.shiftr v (8 * Z.of_nat (k - 1 - j))) 255).
Proof.
  revert j. induction k as [|k IH]; intros j Hj; [lia|].
  cbn [be_bytes]. destruct j as [|j].
  - cbn [nth_error]. do 4 f_equal. lia.
  - cbn [nth_error]. rewrite IH by lia. do 4 f_equal. lia.
Qed.

Lemma length_be_bytes (v : Z) (k : nat) : List.length (be_bytes v k) = k.
Proof. induction k; cbn; auto. Qed.

(** One step of the loop of [expandVint], on a value below [2^31]. *)
Lemma expand_step (v : Z) (m : nat) :
  0 <= v < 2 ^ 31 ->
  js_shl (Z.shiftr v (8 * Z.of_nat (S m))) 8 + Z.land (Z.shiftr v (8 * Z.of_nat m)) 255 =
  Z.shiftr v (8 * Z.of_nat m).
Proof.
  intros Hv.
  assert (Hs : Z.shiftr v (8 * Z.of_nat (S m)) = Z.shiftr (Z.shiftr v (8 * Z.of_nat m)) 8)
    by (rewrite Z.shiftr_shiftr by lia; f_equal; lia).
  rewrite Hs. set (x := Z.shiftr v (8 * Z.of_nat m)).
  assert (Hx : 0 <= x < 2 ^ 31).
  { unfold x. rewrite Z.shiftr_div_pow2 by lia.
    assert (0 < 2 ^ (8 * Z.of_nat m)) by (apply Z.pow_pos_nonneg; lia).
    split; [apply Z.div_pos; lia|].
    apply (Z.le_lt_trans _ v); [apply Z.div_le_upper_bound; nia | lia]. }
  rewrite Z.shiftr_div_pow2 by lia. change (2 ^ 8) with 256.
  pose proof (Z.div_mod x 256 ltac:(lia)). pose proof (Z.mod_pos_bound x 256 ltac:(lia)).
  assert (0 <= x / 256) by (apply Z.div_pos; lia).
  unfold js_shl. rewrite (toInt32_small (x / 256)) by lia.
  change (8 mod 32) with 8. rewrite Z.shiftl_mul_pow2 by lia. change (2 ^ 8) with 256.
  rewrite toInt32_small by lia.
  change 255 with (Z.ones 8). rewrite Z.land_ones by lia. change (2 ^ 8) with 256. lia.
Qed.

Lemma expand_loop_be (buf : list Z) (v i : Z) (m : nat) :
  0 <= v < 2 ^ 31 ->
  (forall j : nat, (j < m)%nat ->
     at_ buf (i + Z.of_nat j) = Some (Z.land (Z.shiftr v (8 * Z.of_nat (m - 1 - j))) 255)) ->
  expand_loop buf (Z.shiftr v (8 * Z.of_nat m)) i m = v.
Proof.
  revert i. induction m as [|m IH]; intros i Hv Ha.
  - cbn [expand_loop]. rewrite Z.mul_0_r. apply Z.shiftr_0_r.
  - cbn [expand_loop]. pose proof (Ha 0%nat ltac:(lia)) as H0. rewrite Z.add_0_r in H0.
    rewrite H0. cbn [undef0]. replace (S m - 1 - 0)%nat with m by lia.
    rewrite expand_step by lia. apply IH; [lia|]. intros j Hj.
    replace (i + 1 + Z.of_nat j) with (i + Z.of_nat (S j)) by lia.
    rewrite Ha by lia. do 4 f_equal. lia.
Qed.

Lemma js_shl_1_small (k : Z) : 0 <= k <= 7 -> js_shl 1 k = 2 ^ k.
Proof.
  intros Hk. unfold js_shl. rewrite (toInt32_small 1) by lia.
  rewrite Z.mod_small by lia. rewrite Z.shiftl_1_l.
  assert (2 ^ k <= 2 ^ 7) by (apply Z.pow_le_mono_r; lia).
  assert (0 < 2 ^ k) by (apply Z.pow_pos_nonneg; lia).
  apply toInt32_small. change (2 ^ 7) with 128 in *. lia.
Qed.

Lemma vint_decode (v : Z) (n : nat) (rest : list Z) :
  (1 <= n <= 8)%nat -> 0 <= v < 2 ^ (7 * Z.of_nat n) -> v < 2 ^ 31 ->
  _readTagDataSize (vint_encode v n ++ rest) 0 = Some (Z.of_nat n, v).
Proof.
  intros Hn Hv H31.
  set (k := 8 - Z.of_nat n).
  set (x := Z.shiftr v (8 * Z.of_nat (n - 1))).
  assert (Hpk : 0 < 2 ^ k) by (apply Z.pow_pos_nonneg; lia).
  assert (Hx : 0 <= x < 2 ^ k).
  { unfold x. rewrite Z.shiftr_div_pow2 by lia.
    assert (0 < 2 ^ (8 * Z.of_nat (n - 1))) by (apply Z.pow_pos_nonneg; lia).
    split; [apply Z.div_pos; lia|]. apply Z.div_lt_upper_bound; [lia|].
    rewrite <- Z.pow_add_r by lia. replace (8 * Z.of_nat (n - 1) + k) with (7 * Z.of_nat n) by lia.
    lia. }
  assert (Hb0 : Z.lor (Z.shiftl 1 (8 - Z.of_nat n)) (Z.shiftr v (8 * Z.of_nat (n - 1))) = 2 ^ k + x).
  { rewrite Z.shiftl_1_l. apply lor_pow2_small; lia. }
  assert (Hk1 : 2 ^ (k + 1) <= 256).
  { change 256 with (2 ^ 8). apply Z.pow_le_mono_r; lia. }
  rewrite Z.pow_add_r in Hk1 by lia. change (2 ^ 1) with 2 in Hk1.
  assert (Hlog : Z.log2 (2 ^ k + x) = k).
  { apply Z.log2_unique; [lia|]. rewrite Z.pow_succ_r by lia. lia. }
  assert (Hlen : blen (vint_encode v n ++ rest) = Z.of_nat n + blen rest).
  { unfold vint_encode, blen. rewrite length_app. cbn [List.length].
    rewrite length_be_bytes. lia. }
  assert (Hvl : vintLength (vint_encode v n ++ rest) 0 = Some (Z.of_nat n)).
  { rewrite (vintLength_log2 _ 0 (2 ^ k + x)).
    - rewrite Hlog, Hlen. pose proof (blen_nonneg rest).
      replace (0 + (8 - k) >? Z.of_nat n + blen rest) with false by (symmetry; apply gtb_false; lia).
      f_equal. lia.
    - unfold vint_encode. rewrite Hb0. reflexivity.
    - lia. }
  unfold _readTagDataSize. rewrite Hvl. unfold expandVint. rewrite Hvl.
  replace (0 + Z.of_nat n >? blen (vint_encode v n ++ rest)) with false
    by (symmetry; apply gtb_false; rewrite Hlen; pose proof (blen_nonneg rest); lia).
  rewrite js_shl_1_small by lia. fold k.
  replace (at_ (vint_encode v n ++ rest) 0) with (Some (2 ^ k + x))
    by (unfold vint_encode; rewrite Hb0; reflexivity).
  cbn [undef0]. unfold js_and.
  rewrite (toInt32_small (2 ^ k + x)) by lia. rewrite (toInt32_small (2 ^ k - 1)) by lia.
  replace (2 ^ k - 1) with (Z.ones k) by (rewrite Z.ones_equiv; lia).
  rewrite Z.land_ones by lia.
  replace ((2 ^ k + x) mod 2 ^ k) with x
    by (rewrite Z.add_comm, <- (Z.mul_1_l (2 ^ k)) at 1; rewrite Z.mod_add, Z.mod_small; lia).
  rewrite (toInt32_small x) by lia.
  replace (Z.to_nat (0 + Z.of_nat n - (0 + 1))) with (n - 1)%nat by lia.
  replace (0 + 1) with 1 by reflexivity. rewrite Z.add_0_l.
  f_equal. f_equal. unfold x. apply expand_loop_be; [lia|].
  intros j Hj. unfold at_, vint_encode.
  replace (1 + Z.of_nat j <? 0) with false by (symmetry; apply Z.ltb_ge; lia).
  replace (Z.to_nat (1 + Z.of_nat j)) with (S j) by lia. cbn [app nth_error].
  rewrite nth_error_app1 by (rewrite length_be_bytes; lia).
  rewrite nth_be_bytes by lia. reflexivity.
Qed.

(** Reading back the length-prefix encoding: a size field of [n] bytes
    (1 to 8) holding a value [v] that is below [2^31] is read by
    [_readTagDataSize] as [v], with the offset moved past the [n] bytes,
    whatever follows it in the buffer. (From [2^31] on the value wraps: see
    C2.) *)
Theorem vint_roundtrip_below_2pow31 (v : Z) (n : nat) (rest : list Z) :
  (1 <= n <= 8)%nat -> 0 <= v < 2 ^ (7 * Z.of_nat n) -> v < 2 ^ 31 ->
  _readTagDataSize (vint_encode v n ++ rest) 0 = Some (Z.of_nat n, v).
Proof. exact (vint_decode v n rest). Qed.

(** ** Termination of the loop of [_transform] *)

Lemma readTag_no_hang (B : list Z) (p : Z) (s s' : state) : _readTag B p s <> Throw Hang s'.
Proof.
  destruct (_readEBMLId B p) as [[id o1]|] eqn:E1.
  - rewrite (readTag_split B p o1 id s E1).
    assert (forall x, after_gate B o1 (hex id) x <> Throw Hang s').
    { intros x. unfold after_gate, ret, bind, get, modify, throw.
      destruct (_readTagDataSize B o1) as [[o2 dl]|]; [|congruence].
      destruct (TAGS (hex id)) as [[|]|]; [congruence| |].
      - destruct (o2 + dl >? blen B); [congruence|].
        destruct (String.eqb (hex id) "63a2"); [destruct (buf_equals _ _); congruence|].
        destruct (String.eqb (hex id) "a3"); [|congruence].
        cbn. destruct (_track _); [|congruence]. destruct (block_matches _ _); congruence.
      - destruct (blen B >? o2 + dl); congruence. }
    destruct (_ebmlFound s); [|destruct (String.eqb _ _)]; auto. congruence.
  - unfold _readTag. rewrite E1. unfold ret. congruence.
Qed.

Lemma tag_loop_no_hang (f : nat) (B : list Z) (p : Z) (s s' : state) :
  good B p -> 0 <= s.(_count) -> (gfuel B p <= f)%nat -> tag_loop f B p s <> Throw Hang s'.
Proof.
  revert p s. induction f as [|f IH]; intros p s Hg Hc Hf; [unfold gfuel in Hf; lia|].
  cbn [tag_loop]. unfold bind, ret, modify.
  pose proof (readTag_count B p s) as Hc'.
  destruct (_readTag B p s) as [r s1|e s1] eqn:E.
  - destruct r as [|o sk]; [congruence|]. destruct (truthy sk) eqn:Es; [congruence|].
    destruct (readTag_step B p o sk s s1 (proj1 Hg) (proj2 Hg _ (reach_refl _ _)) Hc E Es)
      as (-> & Hn & Hb).
    pose proof (proj1 Hg).
    replace (o =? 0) with false by (symmetry; apply Z.eqb_neq; lia).
    cbn in Hc'. apply IH; [apply (good_next B p); assumption | lia |].
    pose proof (gfuel_step B p o ltac:(lia) ltac:(lia)). lia.
  - intros He. injection He as He1 _. subst e. exact (readTag_no_hang B p s s1 E).
Qed.

(** For a well-formed stream, however it is cut into chunks, the [while]
    loop of [_transform] always stops: feeding any of its prefixes never
    runs into the iteration bound of the model. *)
Theorem transform_loop_terminates (S rest : list Z) (cs : list (list Z)) :
  well_formed S -> S = List.concat cs ++ rest -> forall s, run cs init <> Throw Hang s.
Proof.
  intros Hw HS s E. pose proof (Inv_run S rest cs HS Hw) as I. rewrite E in I.
  assert (Hg : good (List.concat cs) 0) by (apply (good_in S _ rest 0 HS Hw); constructor).
  unfold Inv in I. destruct (GL (List.concat cs) 0 init) as [q g|e' g] eqn:EG; [exact I|].
  destruct I as [<- _]. unfold GL in EG.
  exact (tag_loop_no_hang _ _ _ init g Hg ltac:(cbn; lia) (le_n _) EG).
Qed.

(** For a well-formed stream cut into any chunks, what the demuxer keeps
    between chunks is exact: [_length] is the number of bytes received,
    [_count] is at most that, and the remainder is the stream received so
    far from byte [_count] on. *)
Theorem remainder_unconsumed_suffix (S rest : list Z) (cs : list (list Z)) (s : state) :
  well_formed S -> S = List.concat cs ++ rest -> run cs init = Ret tt s ->
  s.(_length) = blen (List.concat cs) /\ 0 <= s.(_count) <= blen (List.concat cs) /\
  remv s = dropZ s.(_count) (List.concat cs).
Proof.
  intros Hw HS E. pose proof (Inv_run S rest cs HS Hw) as I. rewrite E in I.
  unfold Inv in I. destruct (GL (List.concat cs) 0 init) as [q g|e' g]; [|contradiction].
  destruct I as (_ & _ & H1 & H2 & H3 & _). auto.
Qed.

(** A tag not in [TAGS] whose size field decodes to a negative length that
    leads back to the tag's own offset (a 5-byte size such as
    [08 ff ff ff fa], which [expandVint] wraps to -6): [_readTag] returns
    that same offset with no effect, and the [while] loop of [_transform]
    reads the same tag forever; for any number of iterations it has not
    stopped. *)
Theorem negative_length_loops_forever (W : list Z) (p : Z) (s : state) (id : list Z)
    (o2 dl : Z) (f : nat) :
  s.(_ebmlFound) = true -> p <> 0 -> header W p = Some (id, o2, dl) ->
  TAGS (hex id) = None -> o2 + dl = p -> p < blen W ->
  tag_loop f W p s = Throw Hang s.
Proof.
  intros He Hp Hh Ht Hd Hb.
  assert (R : _readTag W p s = Ret (Res p None) s).
  { destruct (readTag_header W p s id o2 dl He Hh) as (o1 & -> & E2).
    unfold after_gate. rewrite E2, Ht, Hd.
    replace (blen W >? p) with true by (symmetry; apply Z.gtb_lt; lia). reflexivity. }
  induction f as [|f IH]; [reflexivity|].
  cbn [tag_loop]. unfold bind at 1. rewrite R. cbn [truthy].
  replace (p =? 0) with false by (symmetry; apply Z.eqb_neq; exact Hp). exact IH.
Qed.

(** ** Instances of the further properties *)

Lemma readTag_too_short_no_effect_witness :
  _readTag (ebml_header ++ [0xa3; 0x85; 0x81]) 5 (set_ebmlFound true init) =
    Ret TOO_SHORT (set_ebmlFound true init) /\
  (set_ebmlFound true init = set_ebmlFound true init \/
   set_ebmlFound true init = set_ebmlFound true (set_ebmlFound true init)).
Proof.
  assert (H : _readTag (ebml_header ++ [0xa3; 0x85; 0x81]) 5 (set_ebmlFound true init) =
              Ret TOO_SHORT (set_ebmlFound true init)) by (vm_compute; reflexivity).
  split; [exact H|]. exact (readTag_too_short_no_effect _ _ _ _ H).
Defined.

Lemma readTag_at_end_witness :
  blen ebml_header <= 5 /\ _readTag ebml_header 5 init = Ret TOO_SHORT init.
Proof.
  assert (H : blen ebml_header <= 5) by (vm_compute; discriminate).
  split; [exact H|]. exact (readTag_at_end ebml_header 5 init H).
Defined.

Lemma codec_check_exact_witness :
  _readTag opus_chunk 5 (set_ebmlFound true init) =
    Ret (Res (8 + 9) None) (discover "63a2" (slice opus_chunk 8 (8 + 9)) (set_ebmlFound true init)).
Proof.
  pose proof (codec_check_exact opus_chunk 5 (set_ebmlFound true init) [0x63; 0xa2] 8 9 eq_refl
    ltac:(lia) ltac:(vm_compute; reflexivity) ltac:(vm_compute; reflexivity) ltac:(lia)
    ltac:(vm_compute; discriminate)) as H.
  cbv zeta in H. rewrite H. vm_compute. reflexivity.
Defined.

Lemma short_block_empty_unit_witness :
  _readTag [0xa3; 0x80] 0 track0_state = Ret (Res (2 + 0) None) (push_unit [] track0_state).
Proof.
  exact (short_block_empty_unit [0xa3; 0x80] 0 track0_state [0xa3] 2 0 (mkTrack (Some 0) (Some 2))
    ltac:(vm_compute; reflexivity) ltac:(lia) ltac:(vm_compute; reflexivity)
    ltac:(vm_compute; reflexivity) ltac:(lia) ltac:(vm_compute; discriminate)
    ltac:(vm_compute; reflexivity) ltac:(vm_compute; reflexivity)).
Defined.

Lemma track_kept_witness :
  (final (run [track_entry 5 2 ++ simple_block 3 0 0 0 1]
              (final (run [ebml_header ++ track_entry 3 2] init)))).(_track) =
    Some (mkTrack (Some 3) (Some 2)).
Proof.
  exact (track_kept [track_entry 5 2 ++ simple_block 3 0 0 0 1]
           (final (run [ebml_header ++ track_entry 3 2] init)) (mkTrack (Some 3) (Some 2))
           ltac:(vm_compute; reflexivity)).
Defined.

Lemma discovered_track_audio_witness :
  type (mkTrack (Some 3) (Some 2)) = Some 2 /\ number (mkTrack (Some 3) (Some 2)) <> None.
Proof.
  exact (discovered_track_audio [ebml_header ++ track_entry 3 2] (mkTrack (Some 3) (Some 2))
           ltac:(vm_compute; reflexivity)).
Defined.

Lemma vintLength_first_set_bit_witness :
  vintLength ebml_header 0 = (if 0 + (8 - Z.log2 0x1a) >? blen ebml_header then None
                              else Some (8 - Z.log2 0x1a)) /\
  vintLength ebml_header 0 = Some 4.
Proof.
  split.
  - exact (vintLength_first_set_bit ebml_header 0 0x1a eq_refl ltac:(lia)).
  - vm_compute. reflexivity.
Defined.

Lemma vint_roundtrip_below_2pow31_witness :
  _readTagDataSize (vint_encode (2 ^ 31 - 1) 5 ++ []) 0 = Some (Z.of_nat 5, 2 ^ 31 - 1).
Proof.
  exact (vint_roundtrip_below_2pow31 (2 ^ 31 - 1) 5 [] ltac:(lia)
           ltac:(vm_compute; split; [discriminate | reflexivity]) ltac:(vm_compute; reflexivity)).
Defined.

Lemma transform_loop_terminates_witness :
  match run (map (fun b => [b]) sample_stream) init with
  | Throw Hang _ => False
  | _ => True
  end.
Proof.
  destruct (run (map (fun b => [b]) sample_stream) init) as [a s|e s] eqn:E; [exact I|].
  destruct e; try exact I.
  exact (transform_loop_terminates sample_stream [] (map (fun b => [b]) sample_stream)
           (wf_walk_well_formed 50 sample_stream ltac:(vm_compute; reflexivity))
           ltac:(vm_compute; reflexivity) s E).
Defined.

Lemma remainder_unconsumed_suffix_witness :
  let s := final (run [firstn 9 sample_stream] init) in
  s.(_length) = blen (List.concat [firstn 9 sample_stream]) /\
  0 <= s.(_count) <= blen (List.concat [firstn 9 sample_stream]) /\
  remv s = dropZ s.(_count) (List.concat [firstn 9 sample_stream]).
Proof.
  exact (remainder_unconsumed_suffix sample_stream (skipn 9 sample_stream) [firstn 9 sample_stream]
           _ (wf_walk_well_formed 50 sample_stream ltac:(vm_compute; reflexivity))
           ltac:(vm_compute; reflexivity) ltac:(vm_compute; reflexivity)).
Defined.

Lemma negative_length_loops_forever_witness :
  header hang_chunk 5 = Some ([0xec], 11, -6) /\
  tag_loop (loop_fuel hang_chunk) hang_chunk 5 (set_ebmlFound true (entered hang_chunk init)) =
    Throw Hang (set_ebmlFound true (entered hang_chunk init)).
Proof.
  assert (H : header hang_chunk 5 = Some ([0xec], 11, -6)) by (vm_compute; reflexivity).
  split; [exact H|].
  exact (negative_length_loops_forever hang_chunk 5 (set_ebmlFound true (entered hang_chunk init)) [0xec] 11 (-6) _ eq_refl ltac:(lia) H
           ltac:(vm_compute; reflexivity) ltac:(lia) ltac:(vm_compute; reflexivity)).
Defined.

Lemma output_only_after_track_witness :
  (final (run [ebml_header ++ track_entry 3 2 ++ simple_block 3 0 0 0 0x11] init)).(pushed) <> [] /\
  (final (run [ebml_header ++ track_entry 3 2 ++ simple_block 3 0 0 0 0x11] init)).(_track) <> None.
Proof.
  assert (H : (final (run [ebml_header ++ track_entry 3 2 ++ simple_block 3 0 0 0 0x11] init)).(pushed) <> [])
    by (vm_compute; discriminate).
  split; [exact H|]. exact (output_only_after_track _ H).
Defined.

(** ** Emission of SimpleBlocks *)

Lemma dropZ_prefix (P X : list Z) : dropZ (blen P) (P ++ X) = X.
Proof.
  unfold dropZ, blen. rewrite Nat2Z.id, skipn_app, skipn_all, Nat.sub_diag. reflexivity.
Qed.

Lemma readEBMLId_mid (P X : list Z) (o o1 : Z) (id : list Z) :
  0 <= o -> _readEBMLId X o = Some (id, o1) ->
  _readEBMLId (P ++ X) (blen P + o) = Some (id, blen P + o1).
Proof.
  intros Ho H. pose proof (blen_nonneg P). pose proof (blen_nonneg X).
  pose proof (readEBMLId_drop (blen P) o (P ++ X) ltac:(rewrite blen_app; lia) Ho) as D.
  rewrite dropZ_prefix, H in D.
  destruct (_readEBMLId (P ++ X) (blen P + o)) as [[i a]|]; [|discriminate].
  injection D as -> ->. f_equal. f_equal. lia.
Qed.

Lemma readTagDataSize_mid (P X : list Z) (o o2 dl : Z) :
  0 <= o -> _readTagDataSize X o = Some (o2, dl) ->
  _readTagDataSize (P ++ X) (blen P + o) = Some (blen P + o2, dl).
Proof.
  intros Ho H. pose proof (blen_nonneg P). pose proof (blen_nonneg X).
  pose proof (readTagDataSize_drop (blen P) o (P ++ X) ltac:(rewrite blen_app; lia) Ho) as D.
  rewrite dropZ_prefix, H in D.
  destruct (_readTagDataSize (P ++ X) (blen P + o)) as [[a b]|]; [|discriminate].
  injection D as -> ->. f_equal. f_equal. lia.
Qed.

Lemma slice_mid (Q d R : list Z) : slice (Q ++ d ++ R) (blen Q) (blen Q + blen d) = d.
Proof.
  pose proof (blen_nonneg Q). pose proof (blen_nonneg d). pose proof (blen_nonneg R).
  unfold slice, rel_index. rewrite !blen_app.
  replace (blen Q <? 0) with false by (symmetry; apply Z.ltb_ge; lia).
  replace (blen Q + blen d <? 0) with false by (symmetry; apply Z.ltb_ge; lia).
  rewrite (Z.min_l (blen Q)), (Z.min_l (blen Q + blen d)) by lia.
  replace (blen Q + blen d - blen Q) with (blen d) by lia.
  unfold blen. rewrite !Nat2Z.id, skipn_app, skipn_all, Nat.sub_diag. cbn [app skipn].
  rewrite firstn_app, firstn_all, Nat.sub_diag. cbn [firstn]. apply app_nil_r.
Qed.

Lemma slice_from_skipn (d : list Z) (k : nat) : slice_from d (Z.of_nat k) = skipn k d.
Proof.
  unfold slice_from, slice, rel_index. pose proof (blen_nonneg d).
  replace (Z.of_nat k <? 0) with false by (symmetry; apply Z.ltb_ge; lia).
  replace (blen d <? 0) with false by (symmetry; apply Z.ltb_ge; lia).
  rewrite Z.min_id. unfold blen in *.
  destruct (Nat.le_gt_cases k (List.length d)).
  - rewrite Z.min_l by lia. rewrite Nat2Z.id. apply firstn_all2. rewrite length_skipn. lia.
  - rewrite Z.min_r by lia. rewrite Nat2Z.id, skipn_all, Z.sub_diag, (skipn_all2 d) by lia.
    reflexivity.
Qed.

Lemma slice_head (a : Z) (X : list Z) : slice (a :: X) 0 (0 + (0 + 1)) = [a].
Proof.
  unfold slice, rel_index. pose proof (blen_nonneg X).
  replace (blen (a :: X)) with (1 + blen X) by (unfold blen; cbn [List.length]; lia).
  rewrite (Z.min_l 0), (Z.min_l (0 + (0 + 1))) by lia. reflexivity.
Qed.

Lemma length_vint_encode (v : Z) (n : nat) : (1 <= n)%nat -> blen (vint_encode v n) = Z.of_nat n.
Proof.
  intros Hn. unfold blen, vint_encode. cbn [List.length]. rewrite length_be_bytes. lia.
Qed.

Lemma blen_block (n : nat) (d : list Z) :
  (1 <= n)%nat -> blen (simple_block_n n d) = 1 + Z.of_nat n + blen d.
Proof.
  intros Hn. unfold simple_block_n.
  replace (0xa3 :: vint_encode (blen d) n ++ d) with ([0xa3] ++ vint_encode (blen d) n ++ d)
    by reflexivity.
  rewrite !blen_app, length_vint_encode by exact Hn. unfold blen at 1. cbn [List.length]. lia.
Qed.

(** One SimpleBlock once a track is known: it is stepped over, and its
    data without the first 4 bytes is pushed when the low nibble of its
    first byte is the track number. *)
Lemma readTag_block (P d R : list Z) (n : nat) (s : state) (t : IncompleteTrack) :
  s.(_ebmlFound) = true -> s.(_track) = Some t -> size_fits d n ->
  _readTag (P ++ simple_block_n n d ++ R) (blen P) s =
  Ret (Res (blen (P ++ simple_block_n n d)) None)
      (if block_matches d t then push_unit (slice_from d 4) s else s).
Proof.
  intros Hf Ht (Hn & Hd & H31).
  pose proof (blen_nonneg P). pose proof (blen_nonneg d). pose proof (blen_nonneg R).
  assert (HV := length_vint_encode (blen d) n ltac:(lia)).
  assert (EB : P ++ simple_block_n n d ++ R = (P ++ [0xa3]) ++ vint_encode (blen d) n ++ d ++ R).
  { unfold simple_block_n. rewrite <- app_assoc. cbn [app]. rewrite <- app_assoc. reflexivity. }
  assert (E1 : _readEBMLId (P ++ simple_block_n n d ++ R) (blen P) = Some ([0xa3], blen P + 1)).
  { rewrite <- (Z.add_0_r (blen P)) at 1. apply readEBMLId_mid; [lia|].
    unfold _readEBMLId, vintLength, simple_block_n. cbn [app].
    set (X := (vint_encode (blen d) n ++ d) ++ R).
    replace (at_ (0xa3 :: X) 0) with (Some 0xa3) by reflexivity.
    cbn [undef0]. change (vint_scan 163 0 8) with 0.
    replace (0 + (0 + 1) >? blen (0xa3 :: X)) with false
      by (symmetry; apply gtb_false; unfold blen; cbn [List.length]; lia).
    rewrite slice_head. reflexivity. }
  assert (E2 : _readTagDataSize (P ++ simple_block_n n d ++ R) (blen P + 1) =
               Some (blen P + 1 + Z.of_nat n, blen d)).
  { pose proof (readTagDataSize_mid (P ++ [0xa3]) (vint_encode (blen d) n ++ d ++ R) 0
                  (Z.of_nat n) (blen d) ltac:(lia) ltac:(apply vint_decode; lia)) as D.
    assert (Hb : blen (P ++ [0xa3]) = blen P + 1)
      by (rewrite blen_app; unfold blen at 2; cbn [List.length]; lia).
    rewrite Hb, Z.add_0_r, <- EB in D. exact D. }
  assert (Ed : slice (P ++ simple_block_n n d ++ R) (blen P + 1 + Z.of_nat n)
                 (blen P + 1 + Z.of_nat n + blen d) = d).
  { rewrite EB, app_assoc.
    replace (blen P + 1 + Z.of_nat n) with (blen ((P ++ [0xa3]) ++ vint_encode (blen d) n))
      by (rewrite !blen_app, HV; unfold blen at 2; cbn [List.length]; lia).
    apply slice_mid. }
  assert (Hl : blen (P ++ simple_block_n n d) = blen P + 1 + Z.of_nat n + blen d).
  { rewrite blen_app, blen_block by lia. lia. }
  rewrite (readTag_split _ _ _ _ s E1), Hf. change (hex [0xa3]) with "a3"%string.
  unfold after_gate. rewrite E2. cbn [TAGS assoc TAGS_table String.eqb Ascii.eqb Bool.eqb].
  rewrite (gtb_false (blen P + 1 + Z.of_nat n + blen d)) by (rewrite !blen_app, blen_block by lia; lia).
  assert (Hdisc : discover "a3" d s = s) by (unfold discover; rewrite Ht; reflexivity).
  rewrite Ed, Hl. unfold bind, modify, get, ret. rewrite Hdisc.
  cbn [String.eqb Ascii.eqb Bool.eqb]. rewrite Ht.
  destruct (block_matches d t); reflexivity.
Qed.

Lemma tag_loop_res_step (f : nat) (B : list Z) (o o' : Z) (s s' : state) :
  _readTag B o s = Ret (Res o' None) s' -> o' <> 0 -> tag_loop (S f) B o s = tag_loop f B o' s'.
Proof.
  intros H Ho. cbn [tag_loop]. unfold bind. rewrite H. cbn [truthy].
  replace (o' =? 0) with false by (symmetry; apply Z.eqb_neq; exact Ho). reflexivity.
Qed.

Lemma tag_loop_stop (f : nat) (B : list Z) (o : Z) (s s' : state) :
  _readTag B o s = Ret TOO_SHORT s' -> tag_loop (S f) B o s = Ret o s'.
Proof. intros H. cbn [tag_loop]. unfold bind. rewrite H. reflexivity. Qed.

Lemma readTag_prefix_res (B c : list Z) (p o : Z) (s s1 : state) :
  0 <= p -> leaf_ok B p -> _readTag B p s = Ret (Res o None) s1 ->
  _readTag (B ++ c) p s = Ret (Res o None) s1.
Proof.
  intros Hp Hl H. pose proof (readTag_prefix B c p s Hp Hl) as E. rewrite H in E. exact E.
Qed.

Lemma block_matches_nibble (b : Z) (r : list Z) (num : Z) (ty : option Z) :
  0 <= b < 256 -> block_matches (b :: r) (mkTrack (Some num) ty) = (Z.land b 15 =? num).
Proof.
  intros Hb. unfold block_matches, js_and. cbn [number].
  replace (at_ (b :: r) 0) with (Some b) by reflexivity. cbn [undef0].
  change 15 with (Z.ones 4). rewrite (toInt32_small b) by lia.
  rewrite (toInt32_small (Z.ones 4)) by (change (Z.ones 4) with 15; lia).
  rewrite Z.land_ones by lia.
  pose proof (Z.mod_pos_bound b (2 ^ 4) ltac:(reflexivity)).
  rewrite toInt32_small by (change (2 ^ 4) with 16 in *; lia). reflexivity.
Qed.

(** The EBML header and a TrackEntry of audio track 3 are read in four
    steps, which leave the track discovered. *)
Lemma track3_prefix (Y : list Z) (L : Z) (f : nat) :
  tag_loop (4 + f) (ebml_header ++ track_entry 3 2 ++ Y) 0 (set_length L init) =
  tag_loop f (ebml_header ++ track_entry 3 2 ++ Y) (blen (ebml_header ++ track_entry 3 2))
    (set_track (Some (mkTrack (Some 3) (Some 2)))
       (set_incompleteTrack (mkTrack (Some 3) (Some 2)) (set_ebmlFound true (set_length L init)))).
Proof.
  rewrite app_assoc. set (H0 := ebml_header ++ track_entry 3 2).
  change (4 + f)%nat with (S (S (S (S f)))).
  rewrite (tag_loop_res_step _ _ 0 5 _ (set_ebmlFound true (set_length L init)))
    by (first [lia | apply readTag_prefix_res;
      [lia | intros ? ? ? Eh _; vm_compute in Eh; injection Eh; intros; subst; lia
      | vm_compute; reflexivity]]).
  rewrite (tag_loop_res_step _ _ 5 7 _ (set_ebmlFound true (set_length L init)))
    by (first [lia | apply readTag_prefix_res;
      [lia | intros ? ? ? Eh _; vm_compute in Eh; injection Eh; intros; subst; lia
      | vm_compute; reflexivity]]).
  rewrite (tag_loop_res_step _ _ 7 10 _
             (set_incompleteTrack (mkTrack (Some 3) None) (set_ebmlFound true (set_length L init))))
    by (first [lia | apply readTag_prefix_res;
      [lia | intros ? ? ? Eh _; vm_compute in Eh; injection Eh; intros; subst; lia
      | vm_compute; reflexivity]]).
  rewrite (tag_loop_res_step _ _ 10 13 _
             (set_track (Some (mkTrack (Some 3) (Some 2)))
                (set_incompleteTrack (mkTrack (Some 3) (Some 2))
                   (set_ebmlFound true (set_length L init)))))
    by (first [lia | apply readTag_prefix_res;
      [lia | intros ? ? ? Eh _; vm_compute in Eh; injection Eh; intros; subst; lia
      | vm_compute; reflexivity]]).
  reflexivity.
Qed.

(** C9: track 3 of the audio type, then three SimpleBlocks of any data
    (of any length that the size field holds) whose first bytes have low
    nibbles 3, 5 and 3: the stream is read with no error, and exactly the
    data of the 1st and 3rd block are emitted, in order, each without its
    first 4 bytes; the 2nd block is dropped. *)
Theorem three_blocks_two_units (b1 b2 b3 : Z) (r1 r2 r3 : list Z) (n1 n2 n3 : nat) :
  0 <= b1 < 256 -> 0 <= b2 < 256 -> 0 <= b3 < 256 ->
  Z.land b1 15 = 3 -> Z.land b2 15 = 5 -> Z.land b3 15 = 3 ->
  size_fits (b1 :: r1) n1 -> size_fits (b2 :: r2) n2 -> size_fits (b3 :: r3) n3 ->
  exists s,
    run [ebml_header ++ track_entry 3 2 ++ simple_block_n n1 (b1 :: r1)
         ++ simple_block_n n2 (b2 :: r2) ++ simple_block_n n3 (b3 :: r3)] init = Ret tt s /\
    s.(pushed) = [skipn 4 (b1 :: r1); skipn 4 (b3 :: r3)].
Proof.
  intros Hb1 Hb2 Hb3 Hm1 Hm2 Hm3 F1 F2 F3.
  pose proof F1 as (Hn1 & _). pose proof F2 as (Hn2 & _). pose proof F3 as (Hn3 & _).
  set (H0 := ebml_header ++ track_entry 3 2).
  set (k1 := simple_block_n n1 (b1 :: r1)). set (k2 := simple_block_n n2 (b2 :: r2)).
  set (k3 := simple_block_n n3 (b3 :: r3)).
  set (B := ebml_header ++ track_entry 3 2 ++ k1 ++ k2 ++ k3).
  set (t := mkTrack (Some 3) (Some 2)).
  set (L := 0 + blen B).
  set (s4 := set_track (Some t) (set_incompleteTrack t (set_ebmlFound true (set_length L init)))).
  set (s5 := push_unit (slice_from (b1 :: r1) 4) s4).
  set (s7 := push_unit (slice_from (b3 :: r3) 4) s5).
  assert (HB : B = H0 ++ k1 ++ k2 ++ k3) by (unfold B, H0; rewrite <- app_assoc; reflexivity).
  assert (HlB : blen B = blen (((H0 ++ k1) ++ k2) ++ k3)) by (rewrite HB, !blen_app; lia).
  assert (Hf : exists f, loop_fuel B = (4 + (4 + f))%nat).
  { exists (loop_fuel B - 8)%nat. unfold loop_fuel. rewrite HlB, !blen_app. unfold k1, k2, k3.
    rewrite !blen_block by lia.
    pose proof (blen_nonneg (b1 :: r1)). pose proof (blen_nonneg (b2 :: r2)).
    pose proof (blen_nonneg (b3 :: r3)). change (blen H0) with 13. lia. }
  destruct Hf as [f Hf].
  assert (S1 : _readTag B (blen H0) s4 = Ret (Res (blen (H0 ++ k1)) None) s5).
  { rewrite HB. etransitivity; [exact (readTag_block H0 (b1 :: r1) (k2 ++ k3) n1 s4 t eq_refl eq_refl F1)|].
    unfold t at 1. rewrite (block_matches_nibble b1 r1 3 (Some 2) Hb1), Hm1. reflexivity. }
  assert (S2 : _readTag B (blen (H0 ++ k1)) s5 = Ret (Res (blen ((H0 ++ k1) ++ k2)) None) s5).
  { rewrite HB, (app_assoc H0 k1).
    etransitivity; [exact (readTag_block (H0 ++ k1) (b2 :: r2) k3 n2 s5 t eq_refl eq_refl F2)|].
    unfold t at 1. rewrite (block_matches_nibble b2 r2 3 (Some 2) Hb2), Hm2. reflexivity. }
  assert (S3 : _readTag B (blen ((H0 ++ k1) ++ k2)) s5 =
               Ret (Res (blen (((H0 ++ k1) ++ k2) ++ k3)) None) s7).
  { replace B with (((H0 ++ k1) ++ k2) ++ k3 ++ [])
      by (rewrite HB, app_nil_r, <- !app_assoc; reflexivity).
    etransitivity; [exact (readTag_block ((H0 ++ k1) ++ k2) (b3 :: r3) [] n3 s5 t eq_refl eq_refl F3)|].
    unfold t at 1. rewrite (block_matches_nibble b3 r3 3 (Some 2) Hb3), Hm3. reflexivity. }
  assert (S4 : _readTag B (blen (((H0 ++ k1) ++ k2) ++ k3)) s7 = Ret TOO_SHORT s7)
    by (apply readTag_past_end; lia).
  cbn [run]. unfold bind at 1. rewrite transform_eq. cbn [_skipUntil init working _remainder].
  change (entered B init) with (set_length L init). unfold bind at 1.
  rewrite Hf.
  replace (tag_loop (4 + (4 + f)) B 0 (set_length L init)) with (tag_loop (4 + f) B (blen H0) s4)
    by (symmetry; exact (track3_prefix (k1 ++ k2 ++ k3) L (4 + f))).
  pose proof (blen_nonneg H0). pose proof (blen_nonneg k1). pose proof (blen_nonneg k2). pose proof (blen_nonneg k3).
  assert (0 < blen k1) by (unfold k1; rewrite blen_block by lia; pose proof (blen_nonneg (b1 :: r1)); lia).
  change (4 + f)%nat with (S (S (S (S f)))).
  rewrite (tag_loop_res_step _ _ _ _ _ _ S1) by (rewrite blen_app; lia).
  rewrite (tag_loop_res_step _ _ _ _ _ _ S2) by (rewrite !blen_app; lia).
  rewrite (tag_loop_res_step _ _ _ _ _ _ S3) by (rewrite !blen_app; lia).
  rewrite (tag_loop_stop _ _ _ _ _ S4).
  eexists. split; [reflexivity|].
  rewrite <- !(slice_from_skipn _ 4). reflexivity.
Qed.

Lemma three_blocks_two_units_witness :
  size_fits [0x83; 0; 1; 0x80; 0x11; 0x12] 1 /\ size_fits [0x85; 0; 2; 0x80; 0x22] 2 /\
  size_fits [0x83; 0; 3; 0x80] 1 /\
  exists s,
    run [ebml_header ++ track_entry 3 2 ++ simple_block_n 1 [0x83; 0; 1; 0x80; 0x11; 0x12]
         ++ simple_block_n 2 [0x85; 0; 2; 0x80; 0x22] ++ simple_block_n 1 [0x83; 0; 3; 0x80]] init
      = Ret tt s /\
    s.(pushed) = [skipn 4 [0x83; 0; 1; 0x80; 0x11; 0x12]; skipn 4 [0x83; 0; 3; 0x80]].
Proof.
  assert (F1 : size_fits [0x83; 0; 1; 0x80; 0x11; 0x12] 1)
    by (split; [lia | split; vm_compute; reflexivity]).
  assert (F2 : size_fits [0x85; 0; 2; 0x80; 0x22] 2)
    by (split; [lia | split; vm_compute; reflexivity]).
  assert (F3 : size_fits [0x83; 0; 3; 0x80] 1)
    by (split; [lia | split; vm_compute; reflexivity]).
  split; [exact F1|]. split; [exact F2|]. split; [exact F3|].
  exact (three_blocks_two_units 0x83 0x85 0x83 [0; 1; 0x80; 0x11; 0x12] [0; 2; 0x80; 0x22]
           [0; 3; 0x80] 1 2 1 ltac:(lia) ltac:(lia) ltac:(lia) eq_refl eq_refl eq_refl F1 F2 F3).
Defined.
